(** * The "now playing" widget of Clementine (src/widgets/nowplayingwidget.cpp)

    A shallow embedding of [NowPlayingWidget]: the members of the C++ class and
    the toolkit state its methods read and write are one record, every method
    is a command on that record, and calls that leave the widget (repaint
    requests, animation starts, calls on the library backend, emitted signals)
    are appended to a trace. *)

From Stdlib Require Import ZArith Ascii String List Floats.
From stdpp Require Import base option list gmap strings.

Open Scope string_scope.
Open Scope Z_scope.

(** ** Toolkit values *)

Definition QString := string.
Definition quint64 := N.
Definition qreal := float.

(** [QString::isEmpty]. *)
Definition isEmpty (s : QString) : bool := bool_decide (s = "").

Definition QString_neq (a b : QString) : bool := negb (bool_decide (a = b)).

(** A [QString] that may be the null string ([QString()]), as returned by a
    cancelled file dialog. *)
Definition NullableQString := option QString.

(** An [int] is modelled by its value in [Z]. The sums of [UpdateHeight],
    [kTopBorder + cover_height_ + kBottomOffset] with [cover_height_] at most
    260, cannot leave the range of [int]. The sums and differences
    [DrawContents] passes to the painter can, for heights and widths at the
    ends of the range: they are computed in 32 bits, two's complement, as
    the compiled program computes them. *)
Definition int_wrap (z : Z) : Z := (z + 2 ^ 31) mod 2 ^ 32 - 2 ^ 31.
Definition int_add (a b : Z) : Z := int_wrap (a + b).
Definition int_sub (a b : Z) : Z := int_wrap (a - b).
Definition int_neg (a : Z) : Z := int_wrap (- a).

Arguments int_wrap z : simpl never.

(** [qMin], [qMax] on [int]. *)
Definition qMin (a b : Z) : Z := if a <? b then a else b.
Definition qMax (a b : Z) : Z := if a <? b then b else a.

(** [qAbs], [qMin] and [qFuzzyCompare] on [double], as QtGlobal defines them:
    [qAbs(p1 - p2) <= 0.000000000001 * qMin(qAbs(p1), qAbs(p2))]. *)
Definition qAbs_real (t : qreal) : qreal :=
  if PrimFloat.leb 0%float t then t else PrimFloat.opp t.

Definition qMin_real (a b : qreal) : qreal :=
  if PrimFloat.ltb a b then a else b.

Definition qFuzzyCompare (p1 p2 : qreal) : bool :=
  PrimFloat.leb (qAbs_real (PrimFloat.sub p1 p2))
                (PrimFloat.mul 0x1.19799812dea11p-40%float
                               (qMin_real (qAbs_real p1) (qAbs_real p2))).

#[projections(primitive)]
Record QSize := { sz_width : Z; sz_height : Z }.

#[projections(primitive)]
Record QColor := { red : Z; green : Z; blue : Z; alpha : Z }.

Definition Qt_black : QColor := {| red := 0; green := 0; blue := 0; alpha := 255 |}.

Inductive QImage :=
| NullImage
| ImageOf (data : string).

Definition QImage_isNull (i : QImage) : bool :=
  match i with NullImage => true | ImageOf _ => false end.

#[projections(primitive)]
Record QTextDocument := {
  textWidth : Z;
  defaultStyleSheet : string;
  html_ : string
}.

Definition empty_document : QTextDocument :=
  {| textWidth := -1; defaultStyleSheet := ""; html_ := "" |}.

#[projections(primitive)]
Record QMovie := { movie_path : string; movie_running : bool }.

Inductive QBrush :=
| SolidBrush (c : QColor)
| LinearGradient (x1 y1 x2 y2 : Z) (stops : list (qreal * QColor)).

(** A pixmap is null, the conversion of an image, the current frame of a movie,
    or a canvas of a given size with what was done to it, in order:
    [QPixmap::fill] and the calls on a [QPainter] opened on it. *)
Inductive QPixmap :=
| NullPixmap
| FromImage (data : string)
| MovieFrame (m : QMovie)
| Canvas (size : QSize) (painted : list PaintCmd)
with PaintCmd :=
| Fill (c : QColor)
| DrawPixmap (x y : Z) (pm : QPixmap)
| DrawPixmapScaled (x y w h : Z) (pm : QPixmap)
| Translate (dx dy : Z)
| FillRect (x y w h : Z) (b : QBrush)
| DrawContents_doc (d : QTextDocument)
| SetOpacity (o : qreal).

(** [QPixmap::fromImage]: a null image gives a null pixmap. *)
Definition QPixmap_fromImage (i : QImage) : QPixmap :=
  match i with NullImage => NullPixmap | ImageOf d => FromImage d end.

(** [QPixmap(const QSize&)]: null when the width or the height is not positive. *)
Definition QPixmap_ofSize (s : QSize) : QPixmap :=
  if (0 <? sz_width s) && (0 <? sz_height s) then Canvas s [] else NullPixmap.

(** Filling and painting reach a canvas only: on a null pixmap [fill] does
    nothing and [QPainter::begin] fails. *)
Definition paint_on (cmds : list PaintCmd) (p : QPixmap) : QPixmap :=
  match p with
  | Canvas s done => Canvas s (done ++ cmds)
  | _ => p
  end.

Definition QPixmap_isNull (p : QPixmap) : bool :=
  match p with NullPixmap => true | _ => false end.

(** [QTimeLine]: the part of its state the widget sets and reads. *)
Inductive Direction := Forward | Backward.
Inductive TimeLineState := NotRunning | Paused | Running.

#[projections(primitive)]
Record QTimeLine := {
  duration : Z;
  direction : Direction;
  startFrame : Z;
  endFrame : Z;
  state : TimeLineState
}.

Definition new_QTimeLine (d : Z) : QTimeLine :=
  {| duration := d; direction := Forward; startFrame := 0; endFrame := 0;
     state := NotRunning |}.

Definition setFrameRange (a b : Z) (t : QTimeLine) : QTimeLine :=
  {| duration := duration t; direction := direction t; startFrame := a;
     endFrame := b; state := state t |}.

Definition setDirection (d : Direction) (t : QTimeLine) : QTimeLine :=
  {| duration := duration t; direction := d; startFrame := startFrame t;
     endFrame := endFrame t; state := state t |}.

(** [QTimeLine::start]: the timeline is running afterwards (a call on a running
    timeline changes nothing). *)
Definition start (t : QTimeLine) : QTimeLine :=
  {| duration := duration t; direction := direction t; startFrame := startFrame t;
     endFrame := endFrame t; state := Running |}.

Definition is_Running (t : QTimeLine) : bool :=
  match state t with Running => true | _ => false end.

(** [QSettings] values. *)
Inductive QVariant :=
| VInt (n : Z)
| VBool (b : bool).

Definition toInt (v : QVariant) : Z :=
  match v with VInt n => n | VBool b => if b then 1 else 0 end.

Definition toBool (v : QVariant) : bool :=
  match v with VInt n => negb (n =? 0) | VBool b => b end.

(** ** The song *)

#[projections(primitive)]
Record Song := {
  title : QString;
  artist : QString;
  album : QString;
  art_automatic : QString;
  art_manual : QString;
  filename : QString
}.

Definition set_art_manual (v : QString) (s : Song) : Song :=
  {| title := title s; artist := artist s; album := album s;
     art_automatic := art_automatic s; art_manual := v; filename := filename s |}.

Definition empty_Song : Song :=
  {| title := ""; artist := ""; album := ""; art_automatic := "";
     art_manual := ""; filename := "" |}.

(** ** Collaborators

    The album-cover loader, the song's title formatting, the cover cache and
    the constants of other files are not part of this file of the repository:
    they are the fields of one interface, and every definition and theorem
    below holds for each implementation of it. *)

#[projections(primitive)]
Class Collaborators := {
  (** [AlbumCoverLoader] (and its subclass [KittenLoader]) *)
  AlbumCoverLoader : Type;
  SetDesiredHeight : Z -> AlbumCoverLoader -> AlbumCoverLoader;
  SetDefaultOutputImage : QImage -> AlbumCoverLoader -> AlbumCoverLoader;
  SetPadOutputImage : bool -> AlbumCoverLoader -> AlbumCoverLoader;
  LoadImageAsync : Song -> AlbumCoverLoader -> quint64 * AlbumCoverLoader;
  new_AlbumCoverLoader : AlbumCoverLoader;
  new_KittenLoader : AlbumCoverLoader;
  TryLoadPixmap : QString -> QString -> QString -> QPixmap;
  kManuallyUnsetCover : QString;
  kEmbeddedCover : QString;
  (** [Song::PrettyTitle] *)
  PrettyTitle : Song -> QString;
  (** [AlbumCoverManager::SaveCoverInCache] *)
  SaveCoverInCache : QString -> QString -> QImage -> QString;
  (** [Qt::escape], [QImage(const QString&)], the laid out height of a
      document, [QString::section('/', 0, -1)] *)
  Qt_escape : QString -> QString;
  QImage_fromFile : QString -> QImage;
  document_height : QTextDocument -> Z;
  section_slash_0_m1 : QString -> QString;
  (** the values of the enumerators of [NowPlayingWidget::Mode] *)
  value_SmallSongDetails : Z;
  value_LargeSongDetails : Z;
  (** the build option *)
  HAVE_LIBLASTFM : bool
}.

(** ** The widget *)

(** [enum Mode]. [UnnamedMode v] is the value a conversion [Mode(v)] gives for
    an [int] [v] that is the value of no enumerator. *)
Inductive Mode :=
| SmallSongDetails
| LargeSongDetails
| UnnamedMode (v : Z).

Inductive LoaderRef := CoverLoaderRef | KittenLoaderRef.

Inductive CoverFromURLDialog := new_CoverFromURLDialog.

Inductive LibraryBackend := BackendPtr (address : nat).

(** The slots a signal of a menu action is connected to. *)
Inductive Slot :=
| SLOT_SetMode_mapped (m : Mode)
| SLOT_LoadCoverFromFile
| SLOT_LoadCoverFromURL
| SLOT_SearchCover
| SLOT_UnsetCover
| SLOT_ZoomCover
| SLOT_ShowAboveStatusBar.

#[projections(primitive)]
Record QAction := {
  icon : option string;
  text : string;
  checkable : bool;
  checked : bool;
  enabled : bool;
  triggered : option Slot;
  toggled : option Slot
}.

Definition setEnabled (b : bool) (a : QAction) : QAction :=
  {| icon := icon a; text := text a; checkable := checkable a;
     checked := checked a; enabled := b; triggered := triggered a;
     toggled := toggled a |}.

Definition setChecked_raw (b : bool) (a : QAction) : QAction :=
  {| icon := icon a; text := text a; checkable := checkable a;
     checked := b; enabled := enabled a; triggered := triggered a;
     toggled := toggled a |}.

(** A [QAction*] is the index of the action in the store of actions. *)
Definition QActionPtr := nat.

Inductive MenuItem :=
| MenuSeparator
| MenuAction (a : QActionPtr).

(** Calls that leave the widget. *)
Inductive Effect :=
| Eff_update
| Eff_updateGeometry
| Eff_show_hide_animation_start
| Eff_fade_animation_start
| Eff_UpdateManualAlbumArtAsync (artist_ album_ path : QString)
| Eff_ShowAboveStatusBarChanged (above : bool)
| Eff_menu_popup (x y : Z)
| Eff_painted (cmds : list PaintCmd)
| Eff_dialog_shown (window_title : QString) (label : QPixmap)
| Eff_loader_thread_started (l : LoaderRef)
| Eff_connect_ImageLoaded (l : LoaderRef)
| Eff_movie_started (m : QMovie).

Section Model.
Context `{Collaborators}.

Definition Mode_of_int (v : Z) : Mode :=
  if v =? value_SmallSongDetails then SmallSongDetails
  else if v =? value_LargeSongDetails then LargeSongDetails
  else UnnamedMode v.

Definition int_of_Mode (m : Mode) : Z :=
  match m with
  | SmallSongDetails => value_SmallSongDetails
  | LargeSongDetails => value_LargeSongDetails
  | UnnamedMode v => v
  end.

Definition Mode_eqb (a b : Mode) : bool := int_of_Mode a =? int_of_Mode b.

(** The members of [NowPlayingWidget], then what it reads and writes outside
    itself: its geometry and palette as a [QWidget], the actions its menu
    holds, the application's [QSettings] and the trace of outgoing calls. *)
#[projections(primitive)]
Record World := {
  cover_from_url_dialog_ : option CoverFromURLDialog;
  cover_loader_ : AlbumCoverLoader;
  kitten_loader_ : option AlbumCoverLoader;
  backend_ : option LibraryBackend;
  mode_ : Mode;
  menu_ : list MenuItem;
  above_statusbar_action_ : QActionPtr;
  choose_cover_ : QActionPtr;
  download_cover_ : QActionPtr;
  search_for_cover_ : QActionPtr;
  unset_cover_ : QActionPtr;
  show_cover_ : QActionPtr;
  visible_ : bool;
  small_ideal_height_ : Z;
  cover_height_ : Z;
  total_height_ : Z;
  show_hide_animation_ : QTimeLine;
  fade_animation_ : QTimeLine;
  load_cover_id_ : quint64;
  details_ : QTextDocument;
  previous_track_ : QPixmap;
  previous_track_opacity_ : qreal;
  hypnotoad_ : option QMovie;
  aww_ : bool;
  metadata_ : Song;
  cover_ : QPixmap;
  (* QWidget *)
  width : Z;
  height : Z;
  maximumHeight : Z;
  palette_background : QColor;
  (* outside the widget *)
  actions : list QAction;
  settings : gmap string QVariant;
  trace : list Effect
}.

Definition eta (w : World) : World :=
  Build_World
    (cover_from_url_dialog_ w) (cover_loader_ w) (kitten_loader_ w) (backend_ w)
    (mode_ w) (menu_ w) (above_statusbar_action_ w) (choose_cover_ w)
    (download_cover_ w) (search_for_cover_ w) (unset_cover_ w) (show_cover_ w)
    (visible_ w) (small_ideal_height_ w) (cover_height_ w) (total_height_ w)
    (show_hide_animation_ w) (fade_animation_ w) (load_cover_id_ w) (details_ w)
    (previous_track_ w) (previous_track_opacity_ w) (hypnotoad_ w) (aww_ w)
    (metadata_ w) (cover_ w) (width w) (height w) (maximumHeight w)
    (palette_background w) (actions w) (settings w) (trace w).

(** [with_field proj] is the function that replaces the field [proj] of a
    [World] and keeps every other field: [eta] with [proj w] abstracted. *)
Ltac with_field proj :=
  let v := fresh "v" in
  let w := fresh "w" in
  intros v w;
  let e := eval cbv beta delta [eta] in (eta w) in
  match eval pattern (proj w) in e with
  | ?F _ => let t := eval cbv beta in (F v) in
            lazymatch t with
            | context [v] => exact t
            end
  end.

Definition set_cover_from_url_dialog_ : option CoverFromURLDialog -> World -> World :=
  ltac:(with_field cover_from_url_dialog_).
Definition set_cover_loader_ : AlbumCoverLoader -> World -> World :=
  ltac:(with_field cover_loader_).
Definition set_kitten_loader_ : option AlbumCoverLoader -> World -> World :=
  ltac:(with_field kitten_loader_).
Definition set_backend_ : option LibraryBackend -> World -> World :=
  ltac:(with_field backend_).
Definition set_mode_ : Mode -> World -> World := ltac:(with_field mode_).
Definition set_visible_ : bool -> World -> World := ltac:(with_field visible_).
Definition set_small_ideal_height_ : Z -> World -> World :=
  ltac:(with_field small_ideal_height_).
Definition set_cover_height_ : Z -> World -> World := ltac:(with_field cover_height_).
Definition set_total_height_ : Z -> World -> World := ltac:(with_field total_height_).
Definition set_show_hide_animation_ : QTimeLine -> World -> World :=
  ltac:(with_field show_hide_animation_).
Definition set_fade_animation_ : QTimeLine -> World -> World :=
  ltac:(with_field fade_animation_).
Definition set_load_cover_id_ : quint64 -> World -> World :=
  ltac:(with_field load_cover_id_).
Definition set_details_ : QTextDocument -> World -> World := ltac:(with_field details_).
Definition set_previous_track_ : QPixmap -> World -> World :=
  ltac:(with_field previous_track_).
Definition set_previous_track_opacity_ : qreal -> World -> World :=
  ltac:(with_field previous_track_opacity_).
Definition set_hypnotoad_ : option QMovie -> World -> World := ltac:(with_field hypnotoad_).
Definition set_aww_ : bool -> World -> World := ltac:(with_field aww_).
Definition set_metadata_ : Song -> World -> World := ltac:(with_field metadata_).
Definition set_cover_ : QPixmap -> World -> World := ltac:(with_field cover_).
Definition set_width : Z -> World -> World := ltac:(with_field width).
Definition set_height : Z -> World -> World := ltac:(with_field height).
Definition setMaximumHeight : Z -> World -> World := ltac:(with_field maximumHeight).
Definition set_actions : list QAction -> World -> World := ltac:(with_field actions).
Definition set_settings : gmap string QVariant -> World -> World :=
  ltac:(with_field settings).
Definition set_trace : list Effect -> World -> World := ltac:(with_field trace).

(** ** Commands

    A method of the widget is a command: it maps the world before the call to
    the world after it, or to [None] where the C++ has no defined behaviour
    (a call through a null pointer). *)

Definition Cmd := World -> option World.

Definition skip : Cmd := Some.

Definition seq (c1 c2 : Cmd) : Cmd :=
  fun w => match c1 w with Some w' => c2 w' | None => None end.

Definition modify (f : World -> World) : Cmd := fun w => Some (f w).

(** [field = expression;] *)
Definition assign {A} (set : A -> World -> World) (e : World -> A) : Cmd :=
  fun w => Some (set (e w) w).

Definition ifte (c : World -> bool) (c1 c2 : Cmd) : Cmd :=
  fun w => if c w then c1 w else c2 w.

Definition when (c : World -> bool) (c1 : Cmd) : Cmd := ifte c c1 skip.

Definition emit (e : World -> Effect) : Cmd :=
  fun w => Some (set_trace (trace w ++ [e w]) w).

Declare Scope cmd_scope.
Delimit Scope cmd_scope with cmd.
Bind Scope cmd_scope with Cmd.
Notation "c1 ;; c2" := (seq c1%cmd c2%cmd)
  (at level 100, c2 at level 200, right associativity) : cmd_scope.
Notation "f ::= e" := (assign f e) (at level 70, no associativity) : cmd_scope.
Open Scope cmd_scope.

(** ** Constants of the widget *)

Definition kSettingsGroup : string := "NowPlayingWidget".
Definition kHypnotoadPath : string := ":/hypnotoad.gif".
Definition kPadding : Z := 2.
Definition kGradientHead : Z := 40.
Definition kGradientTail : Z := 20.
Definition kMaxCoverSize : Z := 260.
Definition kBottomOffset : Z := 0.
Definition kTopBorder : Z := 4.

(** The key of a value of the settings group of the widget. *)
Definition settings_key (name : string) : string := kSettingsGroup +:+ "/" +:+ name.

(** [s.beginGroup(kSettingsGroup); s.setValue(name, v)] and
    [s.beginGroup(kSettingsGroup); s.value(name, d)] *)
Definition setValue (name : string) (v : QVariant)
    (s : gmap string QVariant) : gmap string QVariant :=
  <[settings_key name := v]> s.

Definition value (name : string) (d : QVariant) (s : gmap string QVariant) : QVariant :=
  default d (s !! settings_key name).

(** ** Objects reached through pointers *)

(** [loader->Worker().get()] *)
Definition Worker (l : LoaderRef) (w : World) : option AlbumCoverLoader :=
  match l with
  | CoverLoaderRef => Some (cover_loader_ w)
  | KittenLoaderRef => kitten_loader_ w
  end.

Definition set_Worker (l : LoaderRef) (v : AlbumCoverLoader) : World -> World :=
  match l with
  | CoverLoaderRef => set_cover_loader_ v
  | KittenLoaderRef => set_kitten_loader_ (Some v)
  end.

(** A call of a method of the loader that returns nothing. *)
Definition on_loader (l : LoaderRef)
    (f : World -> AlbumCoverLoader -> AlbumCoverLoader) : Cmd :=
  fun w => match Worker l w with
           | Some L => Some (set_Worker l (f w L) w)
           | None => None
           end.

(** [aww_ ? kitten_loader_->Worker().get() : cover_loader_->Worker().get()],
    passed to [k]. *)
Definition with_current_loader (k : LoaderRef -> Cmd) : Cmd :=
  fun w => if aww_ w
           then match kitten_loader_ w with
                | Some _ => k KittenLoaderRef w
                | None => None
                end
           else k CoverLoaderRef w.

(** A call of a method of a [QAction] through a pointer. *)
Definition on_action (p : World -> QActionPtr) (f : World -> QAction -> QAction) : Cmd :=
  fun w => match actions w !! p w with
           | Some a => Some (set_actions (<[p w := f w a]> (actions w)) w)
           | None => None
           end.

Definition show_hide_animation_start : Cmd :=
  set_show_hide_animation_ ::= (fun w => start (show_hide_animation_ w)) ;;
  emit (fun _ => Eff_show_hide_animation_start).

Definition fade_animation_start : Cmd :=
  set_fade_animation_ ::= (fun w => start (fade_animation_ w)) ;;
  emit (fun _ => Eff_fade_animation_start).

Definition update : Cmd := emit (fun _ => Eff_update).
Definition updateGeometry : Cmd := emit (fun _ => Eff_updateGeometry).

Definition size (w : World) : QSize := {| sz_width := width w; sz_height := height w |}.

(** ** The methods of [NowPlayingWidget] *)

(** [sizeHint] *)
Definition sizeHint (w : World) : QSize :=
  {| sz_width := cover_height_ w; sz_height := total_height_ w |}.

(** [UpdateHeight(AlbumCoverLoader* loader)] *)
Definition UpdateHeight (loader : LoaderRef) : Cmd :=
  (fun w => match mode_ w with
            | SmallSongDetails =>
                (set_cover_height_ ::= small_ideal_height_ ;;
                 set_total_height_ ::= small_ideal_height_) w
            | LargeSongDetails =>
                (set_cover_height_ ::= (fun w => qMin kMaxCoverSize (width w)) ;;
                 set_total_height_ ::=
                   (fun w => kTopBorder + cover_height_ w + kBottomOffset)) w
            | UnnamedMode _ => skip w
            end) ;;
  (* Update the animation settings and resize the widget now if we're visible *)
  set_show_hide_animation_ ::=
    (fun w => setFrameRange 0 (total_height_ w) (show_hide_animation_ w)) ;;
  when (fun w => visible_ w && negb (is_Running (show_hide_animation_ w)))
    (setMaximumHeight ::= total_height_) ;;
  (* Tell the cover loader what size we want the images in *)
  on_loader loader (fun w => SetDesiredHeight (cover_height_ w)) ;;
  on_loader loader (fun _ => SetDefaultOutputImage (QImage_fromFile ":nocover.png")) ;;
  (* Re-fetch the current image *)
  (fun w => match Worker loader w with
            | Some L =>
                let r := LoadImageAsync (metadata_ w) L in
                Some (set_load_cover_id_ (fst r) (set_Worker loader (snd r) w))
            | None => None
            end) ;;
  (* Tell Qt we've changed size *)
  updateGeometry.

(** [set_ideal_height(int height)] *)
Definition set_ideal_height (height : Z) : Cmd :=
  set_small_ideal_height_ ::= (fun _ => height) ;;
  with_current_loader UpdateHeight.

(** [CoverLoaderInitialised()]; [loader] is the thread that sent the signal. *)
Definition CoverLoaderInitialised (loader : LoaderRef) : Cmd :=
  UpdateHeight loader ;;
  on_loader loader (fun _ => SetPadOutputImage true) ;;
  emit (fun _ => Eff_connect_ImageLoaded loader).

(** [DrawContents(QPainter* p)]: the calls on the painter, in order. *)
Definition current_picture (w : World) : QPixmap :=
  match hypnotoad_ w with
  | Some movie => MovieFrame movie
  | None => cover_ w
  end.

Definition DrawContents (w : World) : list PaintCmd :=
  match mode_ w with
  | SmallSongDetails =>
      [ (* Draw the cover *)
        DrawPixmapScaled 0 0 (small_ideal_height_ w) (small_ideal_height_ w)
                         (current_picture w);
        (* Draw the details *)
        Translate (int_add (small_ideal_height_ w) kPadding) 0;
        DrawContents_doc (details_ w);
        Translate (int_sub (int_neg (small_ideal_height_ w)) kPadding) 0 ]
  | LargeSongDetails =>
      let total_size := qMin kMaxCoverSize (width w) in
      let x_offset := int_sub (width w) (cover_height_ w) ÷ 2 in
      (* Work out how high the text is going to be *)
      let text_height := document_height (details_ w) in
      let gradient_mid := int_sub (height w) (qMax text_height kBottomOffset) in
      [ (* Draw the black background *)
        FillRect 0 kTopBorder (width w) (int_sub (height w) kTopBorder)
                 (SolidBrush Qt_black);
        (* Draw the cover *)
        DrawPixmapScaled x_offset kTopBorder total_size total_size (current_picture w);
        (* Draw the black fade *)
        FillRect 0 (int_sub gradient_mid kGradientHead)
                 (width w) (int_sub (height w) (int_sub gradient_mid kGradientHead))
                 (LinearGradient 0 (int_sub gradient_mid kGradientHead)
                                 0 (int_add gradient_mid kGradientTail)
                    [ (0%float, {| red := 0; green := 0; blue := 0; alpha := 0 |});
                      (1%float, {| red := 0; green := 0; blue := 0; alpha := 255 |}) ]);
        (* Draw the text on top *)
        Translate x_offset (int_sub (height w) text_height);
        DrawContents_doc (details_ w);
        Translate (int_neg x_offset) (int_add (int_neg (height w)) text_height) ]
  | UnnamedMode _ => []
  end.

(** [UpdateDetailsText()] *)
Definition details_html (prefix : string) (m : Song) : string :=
  prefix +:+
  ("<i>" +:+ Qt_escape (PrettyTitle m) +:+ "</i><br/>" +:+ Qt_escape (artist m)
   +:+ "<br/>" +:+ Qt_escape (album m)) +:+
  "</p>".

Definition UpdateDetailsText : Cmd :=
  fun w =>
    match mode_ w with
    | SmallSongDetails =>
        Some (set_details_
                {| textWidth := -1; defaultStyleSheet := "";
                   html_ := details_html "<p>" (metadata_ w) |} w)
    | LargeSongDetails =>
        Some (set_details_
                {| textWidth := cover_height_ w;
                   defaultStyleSheet := "p {  font-size: small;  color: white;}";
                   html_ := details_html "<p align=center>" (metadata_ w) |} w)
    | UnnamedMode _ =>
        Some (set_details_
                {| textWidth := textWidth (details_ w);
                   defaultStyleSheet := defaultStyleSheet (details_ w);
                   html_ := details_html "" (metadata_ w) |} w)
    end.

(** [SetVisible(bool visible)] *)
Definition SetVisible (visible : bool) : Cmd :=
  ifte (fun w => Bool.eqb visible (visible_ w)) skip
    (set_visible_ ::= (fun _ => visible) ;;
     set_show_hide_animation_ ::=
       (fun w => setDirection (if visible then Forward else Backward)
                              (show_hide_animation_ w)) ;;
     show_hide_animation_start).

(** [NowPlaying(const Song& metadata)] *)
Definition NowPlaying (metadata : Song) : Cmd :=
  when visible_
    ((* Cache the current pixmap so we can fade between them *)
     set_previous_track_ ::= (fun w => QPixmap_ofSize (size w)) ;;
     set_previous_track_ ::=
       (fun w => paint_on [Fill (palette_background w)] (previous_track_ w)) ;;
     set_previous_track_opacity_ ::= (fun _ => 1%float) ;;
     set_previous_track_ ::=
       (fun w => paint_on (DrawContents w) (previous_track_ w))) ;;
  set_metadata_ ::= (fun _ => metadata) ;;
  set_cover_ ::= (fun _ => NullPixmap) ;;
  (* Loads the cover too. *)
  with_current_loader UpdateHeight ;;
  UpdateDetailsText ;;
  SetVisible true ;;
  update.

(** [Stopped()] *)
Definition Stopped : Cmd := SetVisible false.

(** [AlbumArtLoaded(quint64 id, const QImage& image)] *)
Definition AlbumArtLoaded (id : quint64) (image : QImage) : Cmd :=
  ifte (fun w => negb (N.eqb id (load_cover_id_ w))) skip
    (set_cover_ ::= (fun _ => QPixmap_fromImage image) ;;
     update ;;
     (* Were we waiting for this cover to load before we started fading? *)
     when (fun w => negb (QPixmap_isNull (previous_track_ w)))
       fade_animation_start).

(** [SetHeight(int height)] *)
Definition SetHeight (height : Z) : Cmd := setMaximumHeight ::= (fun _ => height).

(** [paintEvent]: what is drawn on the widget. *)
Definition paintEvent : Cmd :=
  emit (fun w =>
    Eff_painted
      (DrawContents w ++
       (* Draw the previous track's image if we're fading *)
       (if negb (QPixmap_isNull (previous_track_ w))
        then [SetOpacity (previous_track_opacity_ w);
              DrawPixmap 0 0 (previous_track_ w)]
        else []))).

(** [FadePreviousTrack(qreal value)] *)
Definition FadePreviousTrack (value : qreal) : Cmd :=
  set_previous_track_opacity_ ::= (fun _ => value) ;;
  when (fun w => qFuzzyCompare (previous_track_opacity_ w) 0%float)
    (set_previous_track_ ::= (fun _ => NullPixmap)) ;;
  update.

(** [SetMode(int mode)] *)
Definition SetMode (mode : Z) : Cmd :=
  set_mode_ ::= (fun _ => Mode_of_int mode) ;;
  with_current_loader UpdateHeight ;;
  UpdateDetailsText ;;
  update ;;
  set_settings ::=
    (fun w => setValue "mode" (VInt (int_of_Mode (mode_ w))) (settings w)).

(** [resizeEvent(QResizeEvent* e)] *)
#[projections(primitive)]
Record QResizeEvent := { oldSize : QSize; newSize : QSize }.

Definition is_LargeSongDetails (m : Mode) : bool :=
  match m with LargeSongDetails => true | _ => false end.

Definition resizeEvent (e : QResizeEvent) : Cmd :=
  when (fun w => visible_ w && is_LargeSongDetails (mode_ w)
                 && negb (sz_width (oldSize e) =? sz_width (newSize e)))
    (with_current_loader UpdateHeight ;;
     UpdateDetailsText).

(** The toolkit resizes the widget, then sends the event. *)
Definition resized_to (s : QSize) : Cmd :=
  fun w => (modify (set_width (sz_width s)) ;;
            modify (set_height (sz_height s)) ;;
            resizeEvent {| oldSize := size w; newSize := s |}) w.

(** [contextMenuEvent(QContextMenuEvent* e)]; [x], [y] are [e->pos()]. *)
Definition art_is_set (w : World) : bool :=
  negb (isEmpty (art_manual (metadata_ w))) &&
  QString_neq (art_manual (metadata_ w)) kManuallyUnsetCover.

Definition contextMenuEvent (x y : Z) : Cmd :=
  (if HAVE_LIBLASTFM then skip
   else (on_action choose_cover_ (fun _ => setEnabled false) ;;
         on_action search_for_cover_ (fun _ => setEnabled false))) ;;
  (fun w =>
     let art_is_set := art_is_set w in
     (on_action unset_cover_ (fun _ => setEnabled art_is_set) ;;
      on_action show_cover_ (fun _ => setEnabled art_is_set)) w) ;;
  emit (fun _ => Eff_menu_popup x y).

(** [ShowAboveStatusBar(bool above)] *)
Definition ShowAboveStatusBar (above : bool) : Cmd :=
  set_settings ::= (fun w => setValue "above_status_bar" (VBool above) (settings w)) ;;
  emit (fun _ => Eff_ShowAboveStatusBarChanged above).

(** [show_above_status_bar()] *)
Definition show_above_status_bar (w : World) : option bool :=
  checked <$> actions w !! above_statusbar_action_ w.

(** [AllHail(bool hypnotoad)] *)
Definition AllHail (hypnotoad : bool) : Cmd :=
  if hypnotoad
  then (set_hypnotoad_ ::=
          (fun _ => Some {| movie_path := kHypnotoadPath; movie_running := true |}) ;;
        emit (fun _ => Eff_movie_started
                         {| movie_path := kHypnotoadPath; movie_running := true |}) ;;
        update)
  else (set_hypnotoad_ ::= (fun _ => None) ;;
        update).

(** [EnableKittens(bool aww)] *)
Definition EnableKittens (aww : bool) : Cmd :=
  (fun w =>
     if negb (bool_decide (is_Some (kitten_loader_ w))) && aww
     then (set_kitten_loader_ ::= (fun _ => Some new_KittenLoader) ;;
           emit (fun _ => Eff_loader_thread_started KittenLoaderRef)) w
     else if aww
     then NowPlaying (metadata_ w) w
     else skip w) ;;
  set_aww_ ::= (fun _ => aww).

(** [SetAlbumArt(const QString& path)] *)
Definition SetAlbumArt (path : QString) : Cmd :=
  set_metadata_ ::= (fun w => set_art_manual path (metadata_ w)) ;;
  (fun w => match backend_ w with
            | Some _ =>
                emit (fun w => Eff_UpdateManualAlbumArtAsync
                                 (artist (metadata_ w)) (album (metadata_ w)) path) w
            | None => None
            end) ;;
  (fun w => NowPlaying (metadata_ w) w).

(** The directory the file dialog of [LoadCoverFromFile] opens on. *)
Definition initial_dir (w : World) : QString :=
  if negb (isEmpty (art_automatic (metadata_ w))) &&
     QString_neq (art_automatic (metadata_ w)) kEmbeddedCover
  then art_automatic (metadata_ w)
  else section_slash_0_m1 (filename (metadata_ w)).

(** [LoadCoverFromFile()]; [getOpenFileName dir] is the file the user chooses
    in the dialog opened on [dir], null when the dialog is cancelled. *)
Definition LoadCoverFromFile (getOpenFileName : QString -> NullableQString) : Cmd :=
  if HAVE_LIBLASTFM
  then fun w =>
    (* Figure out the initial path. *)
    let dir := initial_dir w in
    match getOpenFileName dir with
    | None => Some w
    | Some cover =>
        (* Can we load the image? *)
        if QImage_isNull (QImage_fromFile cover) then Some w
        else (* Update database *) SetAlbumArt cover w
    end
  else skip.

(** [LoadCoverFromURL()]; [image] is what the dialog returns. *)
Definition LoadCoverFromURL (image : QImage) : Cmd :=
  when (fun w => negb (bool_decide (is_Some (cover_from_url_dialog_ w))))
    (set_cover_from_url_dialog_ ::= (fun _ => Some new_CoverFromURLDialog)) ;;
  (fun w =>
     if QImage_isNull image then Some w
     else SetAlbumArt (SaveCoverInCache (artist (metadata_ w)) (album (metadata_ w))
                                        image) w).

(** The text [SearchCover] puts in the search box. *)
Definition search_query (w : World) : QString :=
  let query := artist (metadata_ w) in
  let query := if negb (isEmpty query) then query +:+ " " else query in
  query +:+ album (metadata_ w).

(** [SearchCover()]; [Exec query] is what the cover searcher returns. *)
Definition SearchCover (Exec : QString -> QImage) : Cmd :=
  if HAVE_LIBLASTFM
  then fun w =>
    (* Get something sensible to stick in the search box *)
    let image := Exec (search_query w) in
    if QImage_isNull image then Some w
    else SetAlbumArt (SaveCoverInCache (artist (metadata_ w)) (album (metadata_ w))
                                       image) w
  else skip.

(** [UnsetCover()] *)
Definition UnsetCover : Cmd := SetAlbumArt kManuallyUnsetCover.

(** [ZoomCover()] *)
Definition ZoomCover : Cmd :=
  emit (fun w =>
    Eff_dialog_shown (title (metadata_ w))
      (TryLoadPixmap (art_automatic (metadata_ w)) (art_manual (metadata_ w))
                     (filename (metadata_ w)))).

(** [SetLibraryBackend(LibraryBackend* backend)] *)
Definition SetLibraryBackend (backend : option LibraryBackend) : Cmd :=
  set_backend_ ::= (fun _ => backend).

(** ** The constructor *)

(** [CreateModeAction(mode, text, group, mapper)]: the action it creates, given
    the mode read from the settings. *)
Definition CreateModeAction (mode : Mode) (text : string) (current : Mode) : QAction :=
  {| icon := None; text := text; checkable := true;
     checked := Mode_eqb mode current; enabled := true;
     triggered := Some (SLOT_SetMode_mapped mode); toggled := None |}.

(** [menu_->addAction(icon, text, this, SLOT(slot))]: the action it creates. *)
Definition addAction (icon_name text : string) (slot : Slot) : QAction :=
  {| icon := Some icon_name; text := text; checkable := false; checked := false;
     enabled := true; triggered := Some slot; toggled := None |}.

(** [NowPlayingWidget(QWidget* parent)], for the settings [persisted] the
    application has stored, the geometry and palette the toolkit gives the new
    widget, and the indeterminate value of [total_height_], which no
    initialiser sets. *)
Definition NowPlayingWidget_new (persisted : gmap string QVariant)
    (geometry : QSize) (background : QColor) (indeterminate : Z) : option World :=
  (* Load settings *)
  let mode :=
    Mode_of_int (toInt (value "mode" (VInt (int_of_Mode SmallSongDetails)) persisted)) in
  let initial :=
    {| cover_from_url_dialog_ := None;
       cover_loader_ := new_AlbumCoverLoader;
       kitten_loader_ := None;
       backend_ := None;
       mode_ := mode;
       (* Context menu *)
       menu_ := [MenuAction 0%nat; MenuAction 1%nat; MenuSeparator;
                 MenuAction 2%nat; MenuAction 3%nat; MenuAction 4%nat;
                 MenuAction 5%nat; MenuAction 6%nat; MenuSeparator;
                 MenuAction 7%nat];
       above_statusbar_action_ := 7%nat;
       choose_cover_ := 2%nat;
       download_cover_ := 3%nat;
       search_for_cover_ := 4%nat;
       unset_cover_ := 5%nat;
       show_cover_ := 6%nat;
       visible_ := false;
       small_ideal_height_ := 0;
       cover_height_ := 0;
       total_height_ := indeterminate;
       show_hide_animation_ := new_QTimeLine 500;
       fade_animation_ := new_QTimeLine 1000;
       load_cover_id_ := 0%N;
       details_ := empty_document;
       previous_track_ := NullPixmap;
       previous_track_opacity_ := 0%float;
       hypnotoad_ := None;
       aww_ := false;
       metadata_ := empty_Song;
       cover_ := NullPixmap;
       width := sz_width geometry;
       height := sz_height geometry;
       maximumHeight := 16777215;
       palette_background := background;
       actions :=
         [ CreateModeAction SmallSongDetails "Small album cover" mode;
           CreateModeAction LargeSongDetails "Large album cover" mode;
           addAction "document-open" "Load cover from disk..." SLOT_LoadCoverFromFile;
           addAction "download" "Load cover from URL..." SLOT_LoadCoverFromURL;
           addAction "find" "Search for album covers..." SLOT_SearchCover;
           addAction "list-remove" "Unset cover" SLOT_UnsetCover;
           addAction "zoom-in" "Show fullsize..." SLOT_ZoomCover;
           {| icon := None; text := "Show above status bar"; checkable := true;
              checked := false; enabled := true; triggered := None;
              toggled := Some SLOT_ShowAboveStatusBar |} ];
       settings := persisted;
       trace := [] |} in
  ((* setChecked emits toggled(bool) when the state changes *)
   when (fun _ => toBool (value "above_status_bar" (VBool false) persisted))
     (on_action above_statusbar_action_ (fun _ => setChecked_raw true) ;;
      ShowAboveStatusBar true) ;;
   (* Animations *)
   setMaximumHeight ::= (fun _ => 0) ;;
   set_fade_animation_ ::= (fun w => setDirection Backward (fade_animation_ w)) ;;
   (* Start loading the cover loader thread *)
   emit (fun _ => Eff_loader_thread_started CoverLoaderRef)) initial.

(** ** Every entry point of the widget *)

Inductive Op :=
| Call_set_ideal_height (height : Z)
| Call_CoverLoaderInitialised (sender : LoaderRef)
| Call_UpdateHeight (loader : LoaderRef)
| Call_NowPlaying (metadata : Song)
| Call_Stopped
| Call_UpdateDetailsText
| Call_AlbumArtLoaded (id : quint64) (image : QImage)
| Call_SetHeight (height : Z)
| Call_SetVisible (visible : bool)
| Call_paintEvent
| Call_FadePreviousTrack (value : qreal)
| Call_SetMode (mode : Z)
| Call_resizeEvent (e : QResizeEvent)
| Call_contextMenuEvent (x y : Z)
| Call_ShowAboveStatusBar (above : bool)
| Call_AllHail (hypnotoad : bool)
| Call_EnableKittens (aww : bool)
| Call_LoadCoverFromFile (getOpenFileName : QString -> NullableQString)
| Call_LoadCoverFromURL (image : QImage)
| Call_SearchCover (Exec : QString -> QImage)
| Call_UnsetCover
| Call_ZoomCover
| Call_SetAlbumArt (path : QString)
| Call_SetLibraryBackend (backend : option LibraryBackend).

Definition run (o : Op) : Cmd :=
  match o with
  | Call_set_ideal_height h => set_ideal_height h
  | Call_CoverLoaderInitialised l => CoverLoaderInitialised l
  | Call_UpdateHeight l => UpdateHeight l
  | Call_NowPlaying m => NowPlaying m
  | Call_Stopped => Stopped
  | Call_UpdateDetailsText => UpdateDetailsText
  | Call_AlbumArtLoaded id image => AlbumArtLoaded id image
  | Call_SetHeight h => SetHeight h
  | Call_SetVisible v => SetVisible v
  | Call_paintEvent => paintEvent
  | Call_FadePreviousTrack v => FadePreviousTrack v
  | Call_SetMode m => SetMode m
  | Call_resizeEvent e => resizeEvent e
  | Call_contextMenuEvent x y => contextMenuEvent x y
  | Call_ShowAboveStatusBar b => ShowAboveStatusBar b
  | Call_AllHail b => AllHail b
  | Call_EnableKittens b => EnableKittens b
  | Call_LoadCoverFromFile f => LoadCoverFromFile f
  | Call_LoadCoverFromURL i => LoadCoverFromURL i
  | Call_SearchCover f => SearchCover f
  | Call_UnsetCover => UnsetCover
  | Call_ZoomCover => ZoomCover
  | Call_SetAlbumArt p => SetAlbumArt p
  | Call_SetLibraryBackend b => SetLibraryBackend b
  end.

(** The pointers of a world are valid: the kitten loader exists when it is in
    use, and every action pointer of the widget points into the store. *)
Definition pointers_valid (w : World) : Prop :=
  (aww_ w = true -> is_Some (kitten_loader_ w)) /\
  is_Some (actions w !! choose_cover_ w) /\
  is_Some (actions w !! search_for_cover_ w) /\
  is_Some (actions w !! unset_cover_ w) /\
  is_Some (actions w !! show_cover_ w).

(** The loader [NowPlaying], [SetMode] and [set_ideal_height] call exists. *)
Definition loader_available (w : World) : Prop :=
  aww_ w = true -> is_Some (kitten_loader_ w).

(** [AlbumArtLoaded] was waiting for this cover to start fading: the id is
    that of the last request and a previous-track pixmap is cached. *)
Definition delivers_awaited_cover (o : Op) (w : World) : bool :=
  match o with
  | Call_AlbumArtLoaded id _ =>
      N.eqb id (load_cover_id_ w) && negb (QPixmap_isNull (previous_track_ w))
  | _ => false
  end.

(** The value an entry point stores in the settings, with its key. *)
Definition stored_setting (o : Op) (w' : World) : option (string * QVariant) :=
  match o with
  | Call_SetMode _ => Some ("mode", VInt (int_of_Mode (mode_ w')))
  | Call_ShowAboveStatusBar above => Some ("above_status_bar", VBool above)
  | _ => None
  end.

(** The calls that left the widget between the world [w] and a later world
    [w']. *)
Definition sent_between (w w' : World) : list Effect :=
  drop (length (trace w)) (trace w').

(** A command maintains a relation between the world it is called in and the
    world it leaves. *)
Definition maintains (R : World -> World -> Prop) (c : Cmd) : Prop :=
  forall w w', c w = Some w' -> R w w'.

(** Whether the trace grew by a start of the fade animation. *)
Definition starts_fade (e : Effect) : bool :=
  match e with Eff_fade_animation_start => true | _ => false end.


(** Between [w] and [w'] the fade animation was neither touched nor started
    (calls were only added to the trace, none of them its start), and the
    settings were not written. *)
Definition fade_untouched (w w' : World) : Prop :=
  fade_animation_ w' = fade_animation_ w /\
  trace w `prefix_of` trace w' /\
  filter (fun e => starts_fade e = true) (sent_between w w') = [].

Definition settings_kept (w w' : World) : Prop := settings w' = settings w.

Definition quiet (w w' : World) : Prop := fade_untouched w w' /\ settings_kept w w'.

(** Validity of the pointers is kept from [w] to [w']. *)
Definition validity_kept (w w' : World) : Prop :=
  pointers_valid w -> pointers_valid w'.

(** The layout of the large cover. *)
Definition large_cover_layout (w : World) : Prop :=
  mode_ w = LargeSongDetails ->
  cover_height_ w = Z.min kMaxCoverSize (width w) /\
  cover_height_ w <= kMaxCoverSize /\
  total_height_ w = kTopBorder + cover_height_ w.

(** The entry points that recompute the layout: [UpdateHeight] itself and its
    callers [NowPlaying], [SetMode], [set_ideal_height], and [resizeEvent]
    for a visible widget in large mode whose width changed. *)
Definition recomputes_layout (o : Op) (w : World) : bool :=
  match o with
  | Call_UpdateHeight _ | Call_NowPlaying _ | Call_SetMode _
  | Call_set_ideal_height _ => true
  | Call_resizeEvent e =>
      visible_ w && is_LargeSongDetails (mode_ w)
      && negb (sz_width (oldSize e) =? sz_width (newSize e))
  | _ => false
  end.

(** The loader an entry point calls exists. *)
Definition loader_of_call_available (o : Op) (w : World) : Prop :=
  match o with
  | Call_UpdateHeight l | Call_CoverLoaderInitialised l => is_Some (Worker l w)
  | _ => loader_available w
  end.

(** The actions of the menu, in order, without the separators. *)
Definition menu_actions (w : World) : list QAction :=
  omap (fun i => match i with
                 | MenuAction p => actions w !! p
                 | MenuSeparator => None
                 end) (menu_ w).

(** The actions that manage the cover art: those wired to a cover slot. *)
Definition is_cover_action (a : QAction) : bool :=
  match triggered a with
  | Some (SLOT_LoadCoverFromFile | SLOT_LoadCoverFromURL | SLOT_SearchCover
         | SLOT_UnsetCover | SLOT_ZoomCover) => true
  | _ => false
  end.

(** Every entry point but three is quiet; [AlbumArtLoaded] may start the fade
    animation, [SetMode] and [ShowAboveStatusBar] write the settings. *)
Definition is_quiet (o : Op) : bool :=
  match o with
  | Call_AlbumArtLoaded _ _ | Call_SetMode _ | Call_ShowAboveStatusBar _ => false
  | _ => true
  end.

(** ** Further notions for the properties of the entry points *)

(** The entry points that run neither [NowPlaying] nor [SetAlbumArt]. *)
Definition is_simple (o : Op) : bool :=
  match o with
  | Call_NowPlaying _ | Call_EnableKittens _ | Call_LoadCoverFromFile _
  | Call_LoadCoverFromURL _ | Call_SearchCover _ | Call_UnsetCover
  | Call_SetAlbumArt _ => false
  | _ => true
  end.

(** The show/hide animation spans the heights from 0 to [total_height_]. *)
Definition frames_follow_height (w : World) : Prop :=
  startFrame (show_hide_animation_ w) = 0 /\
  endFrame (show_hide_animation_ w) = total_height_ w.

(** The show/hide animation of a visible widget points forward. *)
Definition forward_when_visible (w : World) : Prop :=
  visible_ w = true -> direction (show_hide_animation_ w) = Forward.

(** An action without its [enabled] flag. *)
Definition describe (a : QAction) :
    option string * string * bool * bool * option Slot * option Slot :=
  (icon a, text a, checkable a, checked a, triggered a, toggled a).

(** The menu: its items, the pointers the widget keeps into it, and its
    actions without their [enabled] flags. *)
Definition menu_structure (w : World) :
    list MenuItem * list QActionPtr *
    list (option string * string * bool * bool * option Slot * option Slot) :=
  (menu_ w,
   [choose_cover_ w; download_cover_ w; search_for_cover_ w; unset_cover_ w;
    show_cover_ w; above_statusbar_action_ w],
   describe <$> actions w).

(** What every entry point keeps of the animations and of the menu. *)
Definition structure_kept (w w' : World) : Prop :=
  (frames_follow_height w -> frames_follow_height w') /\
  (forward_when_visible w -> forward_when_visible w') /\
  duration (show_hide_animation_ w') = duration (show_hide_animation_ w) /\
  menu_structure w' = menu_structure w.

(** The fade animation runs from 1.0 down to 0.0 in one second. *)
Definition fade_runs_backward (w : World) : Prop :=
  direction (fade_animation_ w) = Backward /\ duration (fade_animation_ w) = 1000.

(** Whether a previous-track pixmap is cached after [NowPlaying] in [w]: a
    visible widget caches its rendering, which is a pixmap unless its size is
    empty; a hidden widget keeps what was cached. *)
Definition caches_previous_track (w : World) : bool :=
  if visible_ w then (0 <? width w) && (0 <? height w)
  else negb (QPixmap_isNull (previous_track_ w)).

(** The entry points that rebuild the details text after the layout. *)
Definition rebuilds_details (o : Op) (w : World) : bool :=
  match o with
  | Call_NowPlaying _ | Call_SetMode _ => true
  | Call_resizeEvent e =>
      visible_ w && is_LargeSongDetails (mode_ w)
      && negb (sz_width (oldSize e) =? sz_width (newSize e))
  | _ => false
  end.

End Model.

Arguments World {_}.
Arguments Cmd {_}.

(** ** An implementation of the collaborators

    A loader that numbers its requests from 0 and queues them, a cover cache
    that names a file after the artist and the album, and the usual values of
    the constants. *)

Record CountingLoader := {
  desired_height : Z;
  default_output_image : QImage;
  pad_output_image : bool;
  next_id : N;
  tasks : list (N * Song)
}.

Definition CountingLoader_new : CountingLoader :=
  {| desired_height := 120; default_output_image := NullImage;
     pad_output_image := false; next_id := 0; tasks := [] |}.

Definition CountingLoader_load (m : Song) (l : CountingLoader) : quint64 * CountingLoader :=
  (next_id l,
   {| desired_height := desired_height l;
      default_output_image := default_output_image l;
      pad_output_image := pad_output_image l;
      next_id := (next_id l + 1) mod 2 ^ 64;
      tasks := tasks l ++ [(next_id l, m)] |}).

Fixpoint escape (s : string) : string :=
  match s with
  | EmptyString => EmptyString
  | String c r =>
      (if Ascii.eqb c "<"%char then "&lt;"
       else if Ascii.eqb c ">"%char then "&gt;"
       else if Ascii.eqb c "&"%char then "&amp;"
       else String c EmptyString) +:+ escape r
  end.

Definition desktop : Collaborators :=
  {| AlbumCoverLoader := CountingLoader;
     SetDesiredHeight h l :=
       {| desired_height := h; default_output_image := default_output_image l;
          pad_output_image := pad_output_image l; next_id := next_id l;
          tasks := tasks l |};
     SetDefaultOutputImage i l :=
       {| desired_height := desired_height l; default_output_image := i;
          pad_output_image := pad_output_image l; next_id := next_id l;
          tasks := tasks l |};
     SetPadOutputImage b l :=
       {| desired_height := desired_height l;
          default_output_image := default_output_image l;
          pad_output_image := b; next_id := next_id l; tasks := tasks l |};
     LoadImageAsync := CountingLoader_load;
     new_AlbumCoverLoader := CountingLoader_new;
     new_KittenLoader := CountingLoader_new;
     TryLoadPixmap automatic manual file :=
       if isEmpty manual then NullPixmap else FromImage manual;
     kManuallyUnsetCover := "(unset)";
     kEmbeddedCover := "(embedded)";
     PrettyTitle m := if isEmpty (title m) then filename m else title m;
     SaveCoverInCache artist album image := "cache/" +:+ artist +:+ "-" +:+ album;
     Qt_escape := escape;
     QImage_fromFile path := if isEmpty path then NullImage else ImageOf path;
     document_height d := 48;
     section_slash_0_m1 path := path;
     value_SmallSongDetails := 0;
     value_LargeSongDetails := 1;
     HAVE_LIBLASTFM := true |}.

(** A widget right after its construction, with no stored settings, 300
    pixels wide and not yet shown. *)
Definition blank : @World desktop :=
  @Build_World desktop None CountingLoader_new None None SmallSongDetails []
    0%nat 0%nat 0%nat 0%nat 0%nat 0%nat false 0 0 0 (new_QTimeLine 0)
    (new_QTimeLine 0) 0%N empty_document NullPixmap 0%float None false
    empty_Song NullPixmap 0 0 0 Qt_black [] ∅ [].

Definition new_widget : @World desktop :=
  default blank
    (@NowPlayingWidget_new desktop ∅ {| sz_width := 300; sz_height := 0 |}
       {| red := 239; green := 239; blue := 239; alpha := 255 |} 0).

Definition song1 : Song :=
  {| title := "Blue <Train>"; artist := "John Coltrane"; album := "Blue Train";
     art_automatic := ""; art_manual := "covers/blue.jpg";
     filename := "/music/blue_train.flac" |}.

(** The world a command leaves, or the world it started in where the command
    has no defined behaviour. *)
Definition after (c : @Cmd desktop) (w : @World desktop) : @World desktop :=
  default w (c w).

(** The widget while a track plays: the backend is set, the main window has
    given the ideal height, a first track has started and the show animation
    has grown the widget to 48 pixels. *)
Definition playing : @World desktop :=
  after (NowPlaying song1)
    (after (modify (set_height 48))
       (after (set_ideal_height 48)
          (after (SetLibraryBackend (Some (BackendPtr 1))) new_widget))).

(** A file dialog and a cover search that the user cancels. *)
Definition cancelled_dialog : QString -> NullableQString := fun _ => None.
Definition cancelled_search : QString -> QImage := fun _ => NullImage.

(** The same collaborators in a build without last.fm support. *)
Definition desktop_without_lastfm : Collaborators :=
  {| AlbumCoverLoader := @AlbumCoverLoader desktop;
     SetDesiredHeight := @SetDesiredHeight desktop;
     SetDefaultOutputImage := @SetDefaultOutputImage desktop;
     SetPadOutputImage := @SetPadOutputImage desktop;
     LoadImageAsync := @LoadImageAsync desktop;
     new_AlbumCoverLoader := @new_AlbumCoverLoader desktop;
     new_KittenLoader := @new_KittenLoader desktop;
     TryLoadPixmap := @TryLoadPixmap desktop;
     kManuallyUnsetCover := @kManuallyUnsetCover desktop;
     kEmbeddedCover := @kEmbeddedCover desktop;
     PrettyTitle := @PrettyTitle desktop;
     SaveCoverInCache := @SaveCoverInCache desktop;
     Qt_escape := @Qt_escape desktop;
     QImage_fromFile := @QImage_fromFile desktop;
     document_height := @document_height desktop;
     section_slash_0_m1 := @section_slash_0_m1 desktop;
     value_SmallSongDetails := @value_SmallSongDetails desktop;
     value_LargeSongDetails := @value_LargeSongDetails desktop;
     HAVE_LIBLASTFM := false |}.

(** A widget of that build right after its construction. *)
Definition new_widget_without_lastfm : @World desktop_without_lastfm :=
  default
    (@Build_World desktop_without_lastfm None CountingLoader_new None None
       SmallSongDetails [] 0%nat 0%nat 0%nat 0%nat 0%nat 0%nat false 0 0 0
       (new_QTimeLine 0) (new_QTimeLine 0) 0%N empty_document NullPixmap 0%float
       None false empty_Song NullPixmap 0 0 0 Qt_black [] ∅ [])
    (@NowPlayingWidget_new desktop_without_lastfm ∅
       {| sz_width := 300; sz_height := 0 |}
       {| red := 239; green := 239; blue := 239; alpha := 255 |} 0).

(** The playing widget put in large mode and stopped: hidden, in large mode. *)
Definition stopped_large : @World desktop :=
  after Stopped (after (SetMode 1) playing).

(** The playing widget when the next track starts: the rendering of the first
    track is cached for the fade. *)
Definition fading : @World desktop := after (NowPlaying song1) playing.

(** The playing widget once its cover has arrived. *)
Definition shown : @World desktop :=
  after (AlbumArtLoaded (load_cover_id_ playing) (ImageOf "blue.png")) playing.

(** A file dialog in which the user chooses a file. *)
Definition chosen_file : QString -> NullableQString := fun _ => Some "covers/new.jpg".

(** * Properties *)

Section Properties.
Context `{Collaborators}.

Lemma qMin_min a b : qMin a b = Z.min a b.
Proof. unfold qMin. destruct (Z.ltb_spec a b); lia. Qed.

(** One case analysis on a test of the command under evaluation: the test is
    the scrutinee of a [match] that holds no other [match]. *)
Ltac case_step :=
  match goal with
  | |- context [match ?x with _ => _ end] =>
      lazymatch x with
      | context [match _ with _ => _ end] => fail
      | _ => idtac
      end;
      let E := fresh "E" in destruct x eqn:E
  end.

(** Evaluation of a command on a symbolic world: everything of the model is
    unfolded, arithmetic, strings and the collaborators are kept as they are. *)
Ltac norm :=
  cbv -[int_wrap Z.add Z.sub Z.opp Z.quot Z.ltb Z.eqb Z.min Z.le Z.lt N.eqb qMin qMax
        large_cover_layout
        qFuzzyCompare String.append details_html DrawContents paint_on
        QPixmap_ofSize QPixmap_isNull QPixmap_fromImage QImage_isNull art_is_set
        initial_dir search_query settings_key Mode_of_int int_of_Mode
        app lookup insert list_lookup list_insert map_insert is_Some
        bool_decide fst snd sent_between prefix filter list_filter setValue value].

Ltac absurd_case :=
  match goal with H : _ = _ |- _ => discriminate H end.

Ltac eval_cmd := norm; repeat (case_step; try absurd_case; norm).

(** Each function generated by [with_field] sets its field. *)
Lemma setters_set (w : World) :
  (forall v, cover_from_url_dialog_ (set_cover_from_url_dialog_ v w) = v) /\
  (forall v, cover_loader_ (set_cover_loader_ v w) = v) /\
  (forall v, kitten_loader_ (set_kitten_loader_ v w) = v) /\
  (forall v, backend_ (set_backend_ v w) = v) /\
  (forall v, mode_ (set_mode_ v w) = v) /\
  (forall v, visible_ (set_visible_ v w) = v) /\
  (forall v, small_ideal_height_ (set_small_ideal_height_ v w) = v) /\
  (forall v, cover_height_ (set_cover_height_ v w) = v) /\
  (forall v, total_height_ (set_total_height_ v w) = v) /\
  (forall v, show_hide_animation_ (set_show_hide_animation_ v w) = v) /\
  (forall v, fade_animation_ (set_fade_animation_ v w) = v) /\
  (forall v, load_cover_id_ (set_load_cover_id_ v w) = v) /\
  (forall v, details_ (set_details_ v w) = v) /\
  (forall v, previous_track_ (set_previous_track_ v w) = v) /\
  (forall v, previous_track_opacity_ (set_previous_track_opacity_ v w) = v) /\
  (forall v, hypnotoad_ (set_hypnotoad_ v w) = v) /\
  (forall v, aww_ (set_aww_ v w) = v) /\
  (forall v, metadata_ (set_metadata_ v w) = v) /\
  (forall v, cover_ (set_cover_ v w) = v) /\
  (forall v, width (set_width v w) = v) /\
  (forall v, height (set_height v w) = v) /\
  (forall v, maximumHeight (setMaximumHeight v w) = v) /\
  (forall v, actions (set_actions v w) = v) /\
  (forall v, settings (set_settings v w) = v) /\
  (forall v, trace (set_trace v w) = v).
Proof. repeat split. Qed.

(** A setter leaves the other fields: the world it gives differs from the
    world it is given in the field it sets only. *)
Lemma setters_frame (w : World) :
  set_cover_from_url_dialog_ (cover_from_url_dialog_ w) w = w /\
  set_cover_loader_ (cover_loader_ w) w = w /\
  set_kitten_loader_ (kitten_loader_ w) w = w /\
  set_backend_ (backend_ w) w = w /\
  set_mode_ (mode_ w) w = w /\
  set_visible_ (visible_ w) w = w /\
  set_small_ideal_height_ (small_ideal_height_ w) w = w /\
  set_cover_height_ (cover_height_ w) w = w /\
  set_total_height_ (total_height_ w) w = w /\
  set_show_hide_animation_ (show_hide_animation_ w) w = w /\
  set_fade_animation_ (fade_animation_ w) w = w /\
  set_load_cover_id_ (load_cover_id_ w) w = w /\
  set_details_ (details_ w) w = w /\
  set_previous_track_ (previous_track_ w) w = w /\
  set_previous_track_opacity_ (previous_track_opacity_ w) w = w /\
  set_hypnotoad_ (hypnotoad_ w) w = w /\
  set_aww_ (aww_ w) w = w /\
  set_metadata_ (metadata_ w) w = w /\
  set_cover_ (cover_ w) w = w /\
  set_width (width w) w = w /\
  set_height (height w) w = w /\
  setMaximumHeight (maximumHeight w) w = w /\
  set_actions (actions w) w = w /\
  set_settings (settings w) w = w /\
  set_trace (trace w) w = w.
Proof. repeat split. Qed.

(** C3: a cover that arrives with an id other than that of the last request
    is dropped: [AlbumArtLoaded] returns the world it was called in, so the
    cover, the cached previous-track pixmap, its opacity and the fade animation
    are untouched and nothing is sent to the toolkit. *)
Theorem AlbumArtLoaded_stale_id_ignored (id : quint64) (image : QImage) (w : World) :
  id <> load_cover_id_ w ->
  AlbumArtLoaded id image w = Some w.
Proof.
  intros Hid. unfold AlbumArtLoaded, ifte, skip.
  destruct (N.eqb_spec id (load_cover_id_ w)) as [Heq | _]; [contradiction | reflexivity].
Qed.

(** C4: [NowPlaying m] makes the widget show [m]. The call is defined whenever
    the loader in use exists; afterwards the stored metadata is [m], the cover
    is the null pixmap until the loader answers, the details text is the
    paragraph built from the title, the artist and the album of [m]: the
    opening tag of the mode, the escaped pretty title in italics, the escaped
    artist and the escaped album, each on a line of its own, and the closing
    tag; the loader in use has received a request for [m] whose id is
    [load_cover_id_], and the widget is visible. *)
Theorem NowPlaying_reflects_metadata (m : Song) (w : World) :
  loader_available w ->
  exists w',
    NowPlaying m w = Some w' /\
    metadata_ w' = m /\
    cover_ w' = NullPixmap /\
    html_ (details_ w') =
      (match mode_ w with
       | SmallSongDetails => "<p>"
       | LargeSongDetails => "<p align=center>"
       | UnnamedMode _ => ""
       end) +:+
      ("<i>" +:+ Qt_escape (PrettyTitle m) +:+ "</i><br/>" +:+ Qt_escape (artist m)
       +:+ "<br/>" +:+ Qt_escape (album m)) +:+
      "</p>" /\
    (exists L,
       let l := if aww_ w then KittenLoaderRef else CoverLoaderRef in
       let request :=
         LoadImageAsync m
           (SetDefaultOutputImage (QImage_fromFile ":nocover.png")
              (SetDesiredHeight (cover_height_ w') L)) in
       Worker l w = Some L /\
       load_cover_id_ w' = fst request /\
       Worker l w' = Some (snd request)) /\
    visible_ w' = true.
Proof.
  intros Hl. unfold loader_available in Hl. eval_cmd.
  all: try (destruct Hl as [K HK]; [assumption | congruence]).
  all: eexists; split; [reflexivity | norm].
  all: do 3 (split; [reflexivity |]); split; [| assumption || reflexivity].
  all: eexists; split; [reflexivity | split; reflexivity].
Qed.

(** Reads off what was sent between [w] and an explicit later world, whose
    trace is [trace w] with calls appended. *)
Ltac read_trace :=
  unfold sent_between; cbn [trace]; repeat rewrite <- app_assoc;
  first [rewrite drop_app_length | rewrite drop_all]; cbn.


(** ** What the entry points leave alone *)

Lemma sent_between_trans (w w1 w2 : World) :
  trace w `prefix_of` trace w1 -> trace w1 `prefix_of` trace w2 ->
  sent_between w w2 = (sent_between w w1 ++ sent_between w1 w2)%list.
Proof.
  intros [l1 E1] [l2 E2]. unfold sent_between. rewrite E2, E1.
  rewrite (drop_app_length (trace w ++ l1) l2).
  rewrite <- app_assoc, !drop_app_length. reflexivity.
Qed.

Lemma fade_untouched_refl (w : World) : fade_untouched w w.
Proof.
  repeat split; [reflexivity |]. unfold sent_between. rewrite drop_all. reflexivity.
Qed.

Lemma fade_untouched_trans (w w1 w2 : World) :
  fade_untouched w w1 -> fade_untouched w1 w2 -> fade_untouched w w2.
Proof.
  intros (F1 & P1 & S1) (F2 & P2 & S2). repeat split.
  - congruence.
  - etransitivity; eassumption.
  - rewrite (sent_between_trans w w1 w2 P1 P2), filter_app, S1, S2. reflexivity.
Qed.

Lemma quiet_refl (w : World) : quiet w w.
Proof. split; [apply fade_untouched_refl | reflexivity]. Qed.

Lemma quiet_trans (w w1 w2 : World) : quiet w w1 -> quiet w1 w2 -> quiet w w2.
Proof.
  intros [F1 S1] [F2 S2]. split; [eapply fade_untouched_trans; eassumption |].
  unfold settings_kept in *. congruence.
Qed.

Lemma maintains_intro (R : World -> World -> Prop) (c : Cmd) :
  (forall w, match c w with Some w' => R w w' | None => True end) -> maintains R c.
Proof. intros HR w w' E. specialize (HR w). rewrite E in HR. exact HR. Qed.

Lemma maintains_seq (R : World -> World -> Prop) (c1 c2 : Cmd) :
  (forall w w1 w2, R w w1 -> R w1 w2 -> R w w2) ->
  maintains R c1 -> maintains R c2 -> maintains R (seq c1 c2).
Proof.
  intros Ht H1 H2 w w' E. unfold seq in E.
  destruct (c1 w) as [w1 |] eqn:E1; [| discriminate E].
  exact (Ht _ _ _ (H1 _ _ E1) (H2 _ _ E)).
Qed.

(** The world after a command is the world before it with calls added to the
    trace, none the start of the fade animation. *)
Ltac fade_untouched_leaf :=
  split; [reflexivity | split;
    [cbn [trace]; repeat apply prefix_app_r; reflexivity
    | read_trace; reflexivity]].

Ltac quiet_leaf := split; [fade_untouched_leaf | reflexivity].

Ltac by_evaluation leaf :=
  apply maintains_intro; intros ?; eval_cmd; try exact I; leaf.

Lemma UpdateHeight_quiet (l : LoaderRef) : maintains quiet (UpdateHeight l).
Proof. by_evaluation quiet_leaf. Qed.

Lemma NowPlaying_quiet (m : Song) : maintains quiet (NowPlaying m).
Proof. by_evaluation quiet_leaf. Qed.

Lemma SetAlbumArt_quiet (path : QString) : maintains quiet (SetAlbumArt path).
Proof.
  unfold SetAlbumArt.
  apply maintains_seq; [apply quiet_trans | by_evaluation quiet_leaf |].
  apply maintains_seq; [apply quiet_trans | by_evaluation quiet_leaf |].
  intros w w' E. exact (NowPlaying_quiet _ _ _ E).
Qed.

Lemma LoadCoverFromFile_quiet (f : QString -> NullableQString) :
  maintains quiet (LoadCoverFromFile f).
Proof.
  intros w w'. unfold LoadCoverFromFile, skip.
  destruct HAVE_LIBLASTFM; [| intros [= <-]; apply quiet_refl].
  destruct (f (initial_dir w)) as [cover |]; [| intros [= <-]; apply quiet_refl].
  destruct (QImage_isNull (QImage_fromFile cover)); [intros [= <-]; apply quiet_refl |].
  apply SetAlbumArt_quiet.
Qed.

Lemma LoadCoverFromURL_quiet (image : QImage) : maintains quiet (LoadCoverFromURL image).
Proof.
  unfold LoadCoverFromURL.
  apply maintains_seq; [apply quiet_trans | by_evaluation quiet_leaf |].
  intros w w'. destruct (QImage_isNull image); [intros [= <-]; apply quiet_refl |].
  apply SetAlbumArt_quiet.
Qed.

Lemma SearchCover_quiet (f : QString -> QImage) : maintains quiet (SearchCover f).
Proof.
  intros w w'. unfold SearchCover, skip.
  destruct HAVE_LIBLASTFM; [| intros [= <-]; apply quiet_refl].
  cbv zeta. destruct (QImage_isNull (f (search_query w))); [intros [= <-]; apply quiet_refl |].
  apply SetAlbumArt_quiet.
Qed.

Lemma start_kitten_loader_quiet :
  maintains quiet
    (seq (assign set_kitten_loader_ (fun _ => Some new_KittenLoader))
         (emit (fun _ => Eff_loader_thread_started KittenLoaderRef))).
Proof. by_evaluation quiet_leaf. Qed.

Lemma EnableKittens_quiet (aww : bool) : maintains quiet (EnableKittens aww).
Proof.
  unfold EnableKittens.
  apply maintains_seq; [apply quiet_trans | | by_evaluation quiet_leaf].
  intros w w'.
  destruct (negb (bool_decide (is_Some (kitten_loader_ w))) && aww).
  - apply start_kitten_loader_quiet.
  - destruct aww; [apply NowPlaying_quiet | intros [= <-]; apply quiet_refl].
Qed.

Lemma run_quiet (o : Op) : is_quiet o = true -> maintains quiet (run o).
Proof.
  destruct o; intros Hq; try discriminate Hq; cbn [run].
  - by_evaluation quiet_leaf.
  - by_evaluation quiet_leaf.
  - apply UpdateHeight_quiet.
  - apply NowPlaying_quiet.
  - by_evaluation quiet_leaf.
  - by_evaluation quiet_leaf.
  - by_evaluation quiet_leaf.
  - by_evaluation quiet_leaf.
  - by_evaluation quiet_leaf.
  - by_evaluation quiet_leaf.
  - by_evaluation quiet_leaf.
  - by_evaluation quiet_leaf.
  - by_evaluation quiet_leaf.
  - apply EnableKittens_quiet.
  - apply LoadCoverFromFile_quiet.
  - apply LoadCoverFromURL_quiet.
  - apply SearchCover_quiet.
  - apply SetAlbumArt_quiet.
  - by_evaluation quiet_leaf.
  - apply SetAlbumArt_quiet.
  - by_evaluation quiet_leaf.
Qed.

(** [DrawContents] reads nothing but the mode, the picture, the details and
    the sizes. *)
Lemma DrawContents_ext (w1 w2 : World) :
  mode_ w1 = mode_ w2 -> hypnotoad_ w1 = hypnotoad_ w2 -> cover_ w1 = cover_ w2 ->
  details_ w1 = details_ w2 -> small_ideal_height_ w1 = small_ideal_height_ w2 ->
  cover_height_ w1 = cover_height_ w2 -> width w1 = width w2 ->
  height w1 = height w2 ->
  DrawContents w1 = DrawContents w2.
Proof.
  intros Hm Hh Hc Hd Hs Hch Hw Hht. unfold DrawContents, current_picture.
  rewrite Hm, Hh, Hc, Hd, Hs, Hch, Hw, Hht. reflexivity.
Qed.

Lemma AlbumArtLoaded_fade (id : quint64) (image : QImage) (w : World) :
  match AlbumArtLoaded id image w with
  | Some w' =>
      (if delivers_awaited_cover (Call_AlbumArtLoaded id image) w
       then fade_animation_ w' = start (fade_animation_ w) /\
            filter (fun e => starts_fade e = true) (sent_between w w')
              = [Eff_fade_animation_start]
       else fade_untouched w w') /\
      settings_kept w w'
  | None => True
  end.
Proof.
  eval_cmd.
  all: split; [| reflexivity].
  all: first [fade_untouched_leaf | split; [reflexivity | read_trace; reflexivity]].
Qed.

Lemma SetMode_fade_untouched (mode : Z) : maintains fade_untouched (SetMode mode).
Proof. by_evaluation fade_untouched_leaf. Qed.

Lemma ShowAboveStatusBar_fade_untouched (above : bool) :
  maintains fade_untouched (ShowAboveStatusBar above).
Proof. by_evaluation fade_untouched_leaf. Qed.

Lemma SetMode_settings (mode : Z) :
  maintains (fun w w' =>
               settings w' = setValue "mode" (VInt (int_of_Mode (mode_ w'))) (settings w))
            (SetMode mode).
Proof. by_evaluation ltac:(reflexivity). Qed.

(** C1: the fade between the artwork of two tracks.
    - [NowPlaying] on a visible widget caches the current rendering, that is
      a pixmap of the size of the widget filled with the background colour
      and painted by [DrawContents], as the previous-track pixmap, with
      opacity 1.0.
    - An entry point starts the fade animation exactly when it is
      [AlbumArtLoaded] with the id of the last request while a previous-track
      pixmap is cached; every other call leaves the animation as it was and
      sends no start.
    - [FadePreviousTrack v] stores [v] as the opacity, and clears the
      previous-track pixmap when [v] compares equal to 0.0, as 0.0 does. *)
Theorem fade_between_tracks :
  (forall (m : Song) (w : World),
      loader_available w -> visible_ w = true ->
      exists w',
        NowPlaying m w = Some w' /\
        previous_track_ w' =
          paint_on (DrawContents w)
            (paint_on [Fill (palette_background w)] (QPixmap_ofSize (size w))) /\
        previous_track_opacity_ w' = 1%float) /\
  (forall (o : Op) (w w' : World),
      run o w = Some w' ->
      if delivers_awaited_cover o w
      then fade_animation_ w' = start (fade_animation_ w) /\
           filter (fun e => starts_fade e = true) (sent_between w w')
             = [Eff_fade_animation_start]
      else fade_animation_ w' = fade_animation_ w /\
           filter (fun e => starts_fade e = true) (sent_between w w') = []) /\
  (forall (v : qreal) (w : World),
      exists w',
        FadePreviousTrack v w = Some w' /\
        previous_track_opacity_ w' = v /\
        previous_track_ w' =
          if qFuzzyCompare v 0%float then NullPixmap else previous_track_ w) /\
  (forall w : World,
      exists w',
        FadePreviousTrack 0%float w = Some w' /\
        previous_track_opacity_ w' = 0%float /\
        previous_track_ w' = NullPixmap).
Proof.
  assert (Hfade : forall (v : qreal) (w : World),
      exists w',
        FadePreviousTrack v w = Some w' /\
        previous_track_opacity_ w' = v /\
        previous_track_ w' =
          if qFuzzyCompare v 0%float then NullPixmap else previous_track_ w).
  { intros v w. eval_cmd.
    all: eexists; split; [reflexivity | split; reflexivity]. }
  split; [| split; [| split]].
  - intros m w Hl Hv. unfold loader_available in Hl.
    eval_cmd.
    all: try (exfalso; congruence).
    all: try (destruct Hl as [K HK]; [assumption | congruence]).
    all: eexists; split; [reflexivity | split; [| reflexivity]].
    all: norm; f_equal; apply DrawContents_ext; cbn;
      solve [reflexivity | assumption | symmetry; assumption].
  - intros o w w' E.
    destruct (is_quiet o) eqn:Hq.
    + assert (Hd : delivers_awaited_cover o w = false)
        by (destruct o; try reflexivity; discriminate Hq).
      rewrite Hd. destruct (run_quiet o Hq w w' E) as [(Hf & _ & Hs) _].
      split; assumption.
    + destruct o; try discriminate Hq; cbn [run] in E.
      * pose proof (AlbumArtLoaded_fade id image w) as HA. rewrite E in HA.
        destruct HA as [HA _].
        destruct (delivers_awaited_cover (Call_AlbumArtLoaded id image) w);
          [exact HA | destruct HA as (Hf & _ & Hs); split; assumption].
      * destruct (SetMode_fade_untouched mode w w' E) as (Hf & _ & Hs).
        split; assumption.
      * destruct (ShowAboveStatusBar_fade_untouched above w w' E) as (Hf & _ & Hs).
        split; assumption.
  - exact Hfade.
  - intros w. destruct (Hfade 0%float w) as (w' & E & Ho & Hp).
    exists w'. repeat split; assumption.
Qed.

(** C2, as the code has it: the widget keeps two values in the persistent
    settings. [SetMode] stores the mode under the key "mode" of the group
    of the widget, [ShowAboveStatusBar] stores its argument under the key
    "above_status_bar", and every other entry point leaves the settings as
    they were. *)
Theorem settings_written_by_two_slots_only (o : Op) (w w' : World) :
  run o w = Some w' ->
  settings w' = match stored_setting o w' with
                | Some (name, v) => setValue name v (settings w)
                | None => settings w
                end.
Proof.
  intros E. destruct (is_quiet o) eqn:Hq.
  - destruct (run_quiet o Hq w w' E) as [_ Hs].
    destruct o; try discriminate Hq; exact Hs.
  - destruct o; try discriminate Hq; cbn [run stored_setting] in *.
    + pose proof (AlbumArtLoaded_fade id image w) as HA. rewrite E in HA.
      exact (proj2 HA).
    + exact (SetMode_settings mode w w' E).
    + revert E. unfold ShowAboveStatusBar, seq, assign, emit.
      intros [= <-]. reflexivity.
Qed.

(** C6, as the code has it: a cancelled dialog or an image that cannot be
    loaded sets no album art. [LoadCoverFromFile] and [SearchCover] return the
    world they were called in; [LoadCoverFromURL] does too, except that its
    first call has created the URL dialog before the dialog is run. *)
Theorem null_cover_sets_no_album_art :
  (forall (getOpenFileName : QString -> NullableQString) (w : World),
      (getOpenFileName (initial_dir w) = None \/
       exists cover, getOpenFileName (initial_dir w) = Some cover /\
                     QImage_isNull (QImage_fromFile cover) = true) ->
      LoadCoverFromFile getOpenFileName w = Some w) /\
  (forall (image : QImage) (w : World),
      QImage_isNull image = true ->
      LoadCoverFromURL image w =
        Some (match cover_from_url_dialog_ w with
              | Some _ => w
              | None => set_cover_from_url_dialog_ (Some new_CoverFromURLDialog) w
              end)) /\
  (forall (Exec : QString -> QImage) (w : World),
      QImage_isNull (Exec (search_query w)) = true ->
      SearchCover Exec w = Some w).
Proof.
  split; [| split].
  - intros f w Hnull. unfold LoadCoverFromFile, skip.
    destruct HAVE_LIBLASTFM; [| reflexivity]. cbv zeta.
    destruct Hnull as [-> | (cover & -> & ->)]; reflexivity.
  - intros image w Hnull.
    unfold LoadCoverFromURL, seq, when, ifte, skip, assign.
    destruct (cover_from_url_dialog_ w) as [d |] eqn:Ed; cbn.
    + rewrite Hnull. reflexivity.
    + rewrite Hnull. reflexivity.
  - intros f w Hnull. unfold SearchCover, skip.
    destruct HAVE_LIBLASTFM; [| reflexivity]. cbv zeta.
    rewrite Hnull. reflexivity.
Qed.

(** C9: the layout of the large cover. After an entry point that recomputes
    the layout, a widget in large mode has [cover_height_] equal to the
    smaller of 260 and its width, hence at most 260, and [total_height_] equal
    to the top border, 4, plus [cover_height_]; and such an entry point is
    defined whenever the loader it calls exists. *)
Theorem large_cover_layout_recomputed (o : Op) (w : World) :
  recomputes_layout o w = true ->
  (forall w', run o w = Some w' -> large_cover_layout w') /\
  (loader_of_call_available o w -> is_Some (run o w)).
Proof.
  intros Hr.
  assert (Hgoal : match run o w with
                  | Some w' => large_cover_layout w'
                  | None => ~ loader_of_call_available o w
                  end).
  { destruct o; try discriminate Hr; revert Hr;
      unfold loader_of_call_available, loader_available;
      eval_cmd; intros Hr; try discriminate Hr.
    all: try (unfold large_cover_layout; cbn; intros Hm;
              first [ exfalso; congruence
                    | rewrite ?qMin_min; unfold kMaxCoverSize, kTopBorder;
                      repeat split; lia ]).
    all: intros Hl;
      first [destruct (Hl eq_refl) as [? Hx] | destruct Hl as [? Hx]];
      discriminate Hx. }
  split.
  - intros w' E. rewrite E in Hgoal. exact Hgoal.
  - intros Hl. destruct (run o w); [eexists; reflexivity | contradiction].
Qed.

(** C8: the widget stores no art itself. With a library backend set and the
    loader in use present, [SetAlbumArt path] writes [path] in the manual-art
    field of the track, first calls [UpdateManualAlbumArtAsync] on the backend
    with the artist and album of the track and [path], and then is
    [NowPlaying] on the updated metadata; [UnsetCover] is [SetAlbumArt] of the
    manually-unset sentinel. *)
Theorem album_art_delegated_to_backend (path : QString) (w : World)
    (b : LibraryBackend) :
  backend_ w = Some b ->
  loader_available w ->
  let updated := set_art_manual path (metadata_ w) in
  let call :=
    Eff_UpdateManualAlbumArtAsync (artist (metadata_ w)) (album (metadata_ w)) path in
  UnsetCover = SetAlbumArt kManuallyUnsetCover /\
  SetAlbumArt path w =
    NowPlaying updated
      (set_trace (trace w ++ [call]) (set_metadata_ updated w)) /\
  exists w',
    SetAlbumArt path w = Some w' /\
    metadata_ w' = updated /\
    art_manual (metadata_ w') = path /\
    head (sent_between w w') = Some call.
Proof.
  intros Hb Hl updated call. unfold loader_available in Hl.
  split; [reflexivity |]. split.
  - unfold SetAlbumArt, seq, assign, emit. cbn. rewrite Hb. reflexivity.
  - subst updated call. eval_cmd.
    all: try (exfalso; congruence).
    all: try (destruct Hl as [K HK]; [assumption | congruence]).
    all: eexists; split; [reflexivity |].
    all: split; [reflexivity | split; [reflexivity |]].
    all: read_trace; reflexivity.
Qed.

(** Replaces what the command under evaluation tests by its known value [v],
    whatever the form of the field accesses in it. *)
Ltac tested_is v E :=
  match goal with
  | |- context [match ?x with _ => _ end] =>
      replace x with v by (symmetry; exact E)
  end.

Lemma art_is_set_spec (w : World) :
  art_is_set w = true <->
  art_manual (metadata_ w) <> "" /\ art_manual (metadata_ w) <> kManuallyUnsetCover.
Proof.
  unfold art_is_set, isEmpty, QString_neq.
  rewrite andb_true_iff, !negb_true_iff, !bool_decide_eq_false. reflexivity.
Qed.

(** Two calls of [setEnabled(b)] through two pointers into a store leave both
    actions with [enabled] equal to [b], whether the pointers differ or not. *)
Lemma setEnabled_twice (l : list QAction) (i j : nat) (b : bool) (ai : QAction) :
  l !! i = Some ai -> is_Some (l !! j) ->
  exists aj,
    <[i := setEnabled b ai]> l !! j = Some aj /\
    enabled <$> <[j := setEnabled b aj]> (<[i := setEnabled b ai]> l) !! i = Some b /\
    enabled <$> <[j := setEnabled b aj]> (<[i := setEnabled b ai]> l) !! j = Some b.
Proof.
  intros Ei Hj.
  assert (Hi : (i < length l)%nat) by (eapply lookup_lt_Some; eassumption).
  assert (Hj' : (j < length l)%nat) by (apply lookup_lt_is_Some; assumption).
  destruct (proj2 (list_lookup_insert_is_Some l i (setEnabled b ai) j) Hj) as [aj Eaj].
  exists aj. split; [exact Eaj |]. split.
  - rewrite list_lookup_insert. destruct (decide _) as [_ | _]; [reflexivity |].
    rewrite list_lookup_insert_eq by exact Hi. reflexivity.
  - rewrite list_lookup_insert_eq by (rewrite length_insert; exact Hj'). reflexivity.
Qed.

(** The last two calls of [contextMenuEvent] on the menu actions. *)
Lemma enable_unset_and_show (b : bool) (w : World) :
  is_Some (actions w !! unset_cover_ w) ->
  is_Some (actions w !! show_cover_ w) ->
  exists w',
    seq (on_action unset_cover_ (fun _ => setEnabled b))
        (on_action show_cover_ (fun _ => setEnabled b)) w = Some w' /\
    enabled <$> actions w' !! unset_cover_ w' = Some b /\
    enabled <$> actions w' !! show_cover_ w' = Some b.
Proof.
  intros [au Eu] Hs.
  destruct (setEnabled_twice _ _ _ b au Eu Hs) as (ash & Es & Hen_u & Hen_s).
  unfold seq, on_action. cbv beta. tested_is (Some au) Eu. cbn.
  tested_is (Some ash) Es.
  eexists. split; [reflexivity |]. split; [exact Hen_u | exact Hen_s].
Qed.

(** C10: on a context-menu event, on a widget whose action pointers are valid,
    "Unset cover" and "Show fullsize" are both enabled when the manual-art
    field of the track is neither empty nor the manually-unset sentinel, and
    both disabled otherwise. *)
Theorem context_menu_enables_unset_and_show (x y : Z) (w : World) :
  pointers_valid w ->
  exists w',
    contextMenuEvent x y w = Some w' /\
    enabled <$> actions w' !! unset_cover_ w' = Some (art_is_set w) /\
    enabled <$> actions w' !! show_cover_ w' = Some (art_is_set w) /\
    (art_is_set w = true <->
     art_manual (metadata_ w) <> "" /\
     art_manual (metadata_ w) <> kManuallyUnsetCover).
Proof.
  intros (_ & [ac Ec] & [asr Esr] & Hu & Hs).
  assert (Hprefix : exists w1,
    (if HAVE_LIBLASTFM then skip
     else seq (on_action choose_cover_ (fun _ => setEnabled false))
              (on_action search_for_cover_ (fun _ => setEnabled false))) w
      = Some w1 /\
    is_Some (actions w1 !! unset_cover_ w1) /\
    is_Some (actions w1 !! show_cover_ w1) /\
    art_is_set w1 = art_is_set w).
  { destruct HAVE_LIBLASTFM.
    - exists w. repeat split; assumption.
    - unfold seq, on_action. cbv beta. tested_is (Some ac) Ec. cbn.
      assert (Hlen : forall (i j : nat) (a : QAction) (l : list QAction),
                 is_Some (l !! i) -> is_Some (<[j := a]> l !! i)).
      { intros i j a l. rewrite !lookup_lt_is_Some, length_insert. trivial. }
      destruct (Hlen (search_for_cover_ w) (choose_cover_ w) (setEnabled false ac)
                  (actions w) (ex_intro _ asr Esr)) as [a' Ea'].
      tested_is (Some a') Ea'. eexists. split; [reflexivity |].
      split; [exact (Hlen _ _ _ _ (Hlen _ _ _ _ Hu)) |].
      split; [exact (Hlen _ _ _ _ (Hlen _ _ _ _ Hs)) | reflexivity]. }
  destruct Hprefix as (w1 & E1 & Hu1 & Hs1 & Hart).
  destruct (enable_unset_and_show (art_is_set w1) w1 Hu1 Hs1)
    as (w2 & E2 & Hen_u & Hen_s).
  exists (set_trace (trace w2 ++ [Eff_menu_popup x y]) w2).
  split; [| split; [| split]].
  - unfold contextMenuEvent. unfold seq at 1. rewrite E1.
    unfold seq at 1. cbv zeta. rewrite E2. reflexivity.
  - cbn. rewrite Hen_u, Hart. reflexivity.
  - cbn. rewrite Hen_s, Hart. reflexivity.
  - apply art_is_set_spec.
Qed.

(** C7: the context menu the constructor builds. Whatever the stored settings,
    the construction is defined; the menu holds the two mode actions, a
    separator, the five cover actions through the pointers the widget keeps,
    a separator and the status-bar toggle; and its actions wired to a cover
    slot are exactly, in this order, "Load cover from disk..." to
    [LoadCoverFromFile], "Load cover from URL..." to [LoadCoverFromURL],
    "Search for album covers..." to [SearchCover], "Unset cover" to
    [UnsetCover] and "Show fullsize..." to [ZoomCover]. *)
Theorem context_menu_cover_actions (persisted : gmap string QVariant)
    (geometry : QSize) (background : QColor) (indeterminate : Z) :
  exists w,
    NowPlayingWidget_new persisted geometry background indeterminate = Some w /\
    menu_ w =
      [ MenuAction 0%nat; MenuAction 1%nat; MenuSeparator;
        MenuAction (choose_cover_ w); MenuAction (download_cover_ w);
        MenuAction (search_for_cover_ w); MenuAction (unset_cover_ w);
        MenuAction (show_cover_ w); MenuSeparator;
        MenuAction (above_statusbar_action_ w) ] /\
    (fun a => (text a, triggered a)) <$> filter (fun a => is_cover_action a = true)
                                                (menu_actions w) =
      [ ("Load cover from disk...", Some SLOT_LoadCoverFromFile);
        ("Load cover from URL...", Some SLOT_LoadCoverFromURL);
        ("Search for album covers...", Some SLOT_SearchCover);
        ("Unset cover", Some SLOT_UnsetCover);
        ("Show fullsize...", Some SLOT_ZoomCover) ] /\
    (fun p => triggered <$> actions w !! p) <$>
      [ choose_cover_ w; download_cover_ w; search_for_cover_ w;
        unset_cover_ w; show_cover_ w ] =
      [ Some (Some SLOT_LoadCoverFromFile); Some (Some SLOT_LoadCoverFromURL);
        Some (Some SLOT_SearchCover); Some (Some SLOT_UnsetCover);
        Some (Some SLOT_ZoomCover) ] /\
    pointers_valid w.
Proof.
  unfold NowPlayingWidget_new.
  cbv -[value setValue Mode_of_int Mode_eqb int_of_Mode toBool].
  destruct (toBool (value "above_status_bar" (VBool false) persisted)).
  - eexists. split; [reflexivity |].
    split; [reflexivity |]. split; [reflexivity |]. split; [reflexivity |].
    unfold pointers_valid. cbn.
    split; [intros Hf; discriminate Hf | repeat split; eexists; reflexivity].
  - eexists. split; [reflexivity |].
    split; [reflexivity |]. split; [reflexivity |]. split; [reflexivity |].
    unfold pointers_valid. cbn.
    split; [intros Hf; discriminate Hf | repeat split; eexists; reflexivity].
Qed.

(** ** Validity of the pointers is an invariant *)

Lemma validity_kept_trans (w w1 w2 : World) :
  validity_kept w w1 -> validity_kept w1 w2 -> validity_kept w w2.
Proof. unfold validity_kept. auto. Qed.

Ltac validity_leaf :=
  let Hk := fresh "Hk" in
  intros (Hk & ? & ? & ? & ?);
  split;
  [ first [ intros _; first [eexists; reflexivity | apply Hk; assumption]
          | intros Hf; discriminate Hf
          | exact Hk ]
  | repeat split; rewrite ?list_lookup_insert_is_Some;
    first [assumption | eexists; reflexivity | eexists; eassumption] ].

Lemma NowPlaying_validity (m : Song) : maintains validity_kept (NowPlaying m).
Proof. by_evaluation validity_leaf. Qed.

Lemma SetAlbumArt_validity (path : QString) :
  maintains validity_kept (SetAlbumArt path).
Proof.
  unfold SetAlbumArt.
  apply maintains_seq; [apply validity_kept_trans | by_evaluation validity_leaf |].
  apply maintains_seq; [apply validity_kept_trans | by_evaluation validity_leaf |].
  intros w w' E. exact (NowPlaying_validity _ _ _ E).
Qed.

Lemma NowPlaying_keeps_kitten_loader (m : Song) :
  maintains (fun w w' => is_Some (kitten_loader_ w) -> is_Some (kitten_loader_ w'))
            (NowPlaying m).
Proof.
  by_evaluation ltac:(intros Hn;
    first [exact Hn | eexists; reflexivity | destruct Hn as [? Hn]; discriminate Hn]).
Qed.

Lemma EnableKittens_validity (aww : bool) :
  maintains validity_kept (EnableKittens aww).
Proof.
  intros w w' E (Hk & Hrest).
  unfold EnableKittens, seq in E.
  destruct (negb (bool_decide (is_Some (kitten_loader_ w))) && aww) eqn:Ec.
  - revert E. unfold assign, emit. cbn. intros [= <-].
    split; [intros _; eexists; reflexivity | exact Hrest].
  - destruct aww.
    + destruct (NowPlaying (metadata_ w) w) as [w1 |] eqn:E1; [| discriminate E].
      destruct (NowPlaying_validity _ _ _ E1 (conj Hk Hrest)) as (Hk1 & Hrest1).
      revert E. unfold assign. intros [= <-].
      split; [intros _ | exact Hrest1].
      rewrite andb_true_r, negb_false_iff, bool_decide_eq_true in Ec.
      exact (NowPlaying_keeps_kitten_loader _ _ _ E1 Ec).
    + revert E. unfold skip, assign. intros [= <-].
      split; [intros Hf; discriminate Hf | exact Hrest].
Qed.

Lemma by_SetAlbumArt (R : World -> World -> Prop) (c : Cmd) :
  (forall w, R w w) ->
  (forall path, maintains R (SetAlbumArt path)) ->
  (forall w, c w = Some w \/ exists path, c w = SetAlbumArt path w) ->
  maintains R c.
Proof.
  intros Hrefl Hset Hc w w' E.
  destruct (Hc w) as [E0 | [path E0]]; rewrite E0 in E.
  - injection E as <-. apply Hrefl.
  - exact (Hset path w w' E).
Qed.

Lemma LoadCoverFromFile_cases (f : QString -> NullableQString) (w : World) :
  LoadCoverFromFile f w = Some w \/
  exists path, LoadCoverFromFile f w = SetAlbumArt path w.
Proof.
  unfold LoadCoverFromFile, skip. destruct HAVE_LIBLASTFM; [| left; reflexivity].
  cbv zeta. destruct (f (initial_dir w)) as [cover |]; [| left; reflexivity].
  destruct (QImage_isNull (QImage_fromFile cover)); [left; reflexivity |].
  right. eexists. reflexivity.
Qed.

Lemma SearchCover_cases (f : QString -> QImage) (w : World) :
  SearchCover f w = Some w \/ exists path, SearchCover f w = SetAlbumArt path w.
Proof.
  unfold SearchCover, skip. destruct HAVE_LIBLASTFM; [| left; reflexivity].
  cbv zeta. destruct (QImage_isNull (f (search_query w))); [left; reflexivity |].
  right. eexists. reflexivity.
Qed.

Lemma LoadCoverFromURL_validity (image : QImage) :
  maintains validity_kept (LoadCoverFromURL image).
Proof.
  unfold LoadCoverFromURL.
  apply maintains_seq; [apply validity_kept_trans | by_evaluation validity_leaf |].
  intros w w'. destruct (QImage_isNull image); [intros [= <-] Hv; exact Hv |].
  apply SetAlbumArt_validity.
Qed.

(** Every entry point keeps the pointers valid. *)
Lemma run_keeps_pointers_valid (o : Op) : maintains validity_kept (run o).
Proof.
  destruct o; cbn [run].
  - by_evaluation validity_leaf.
  - by_evaluation validity_leaf.
  - by_evaluation validity_leaf.
  - apply NowPlaying_validity.
  - by_evaluation validity_leaf.
  - by_evaluation validity_leaf.
  - by_evaluation validity_leaf.
  - by_evaluation validity_leaf.
  - by_evaluation validity_leaf.
  - by_evaluation validity_leaf.
  - by_evaluation validity_leaf.
  - by_evaluation validity_leaf.
  - by_evaluation validity_leaf.
  - by_evaluation validity_leaf.
  - by_evaluation validity_leaf.
  - by_evaluation validity_leaf.
  - apply EnableKittens_validity.
  - apply by_SetAlbumArt;
      [intros w Hv; exact Hv | apply SetAlbumArt_validity
      | apply LoadCoverFromFile_cases].
  - apply LoadCoverFromURL_validity.
  - apply by_SetAlbumArt;
      [intros w Hv; exact Hv | apply SetAlbumArt_validity | apply SearchCover_cases].
  - apply SetAlbumArt_validity.
  - by_evaluation validity_leaf.
  - apply SetAlbumArt_validity.
  - by_evaluation validity_leaf.
Qed.

(** ** Further properties of the entry points *)

(** The steps of the entry points that go through [SetAlbumArt] or
    [NowPlaying] maintain a relation as soon as their steps do. *)
Lemma run_maintains (R : World -> World -> Prop) :
  (forall w, R w w) ->
  (forall w w1 w2, R w w1 -> R w1 w2 -> R w w2) ->
  (forall o, is_simple o = true -> maintains R (run o)) ->
  (forall m, maintains R (NowPlaying m)) ->
  (forall v w, R w (set_metadata_ v w)) ->
  (forall v w, R w (set_cover_from_url_dialog_ v w)) ->
  (forall v w, R w (set_kitten_loader_ (Some v) w)) ->
  (forall v w, R w (set_aww_ v w)) ->
  (forall e w, R w (set_trace (trace w ++ [e]) w)) ->
  forall o, maintains R (run o).
Proof.
  intros Hrefl Htrans Hsimple Hnow Hmeta Hdialog Hkitten Haww Hemit.
  assert (Hset : forall path, maintains R (SetAlbumArt path)).
  { intros path w w' E. unfold SetAlbumArt, seq, assign, emit in E.
    destruct (backend_ (set_metadata_ (set_art_manual path (metadata_ w)) w));
      [| discriminate E].
    eapply Htrans; [apply Hmeta |]. eapply Htrans; [apply Hemit |].
    exact (Hnow _ _ _ E). }
  intros o. destruct (is_simple o) eqn:Hs; [exact (Hsimple o Hs) |].
  destruct o; try discriminate Hs; cbn [run].
  - exact (Hnow metadata).
  - intros w w' E. unfold EnableKittens, seq, assign, emit in E.
    destruct (negb (bool_decide (is_Some (kitten_loader_ w))) && aww).
    + injection E as <-.
      eapply Htrans; [apply Hkitten |]. eapply Htrans; [apply Hemit |]. apply Haww.
    + destruct aww.
      * destruct (NowPlaying (metadata_ w) w) as [w1 |] eqn:E1; [| discriminate E].
        injection E as <-. eapply Htrans; [exact (Hnow _ _ _ E1) | apply Haww].
      * injection E as <-. apply Haww.
  - apply by_SetAlbumArt; [exact Hrefl | exact Hset | apply LoadCoverFromFile_cases].
  - intros w w' E. unfold LoadCoverFromURL, seq, when, ifte, skip, assign in E.
    destruct (negb (bool_decide (is_Some (cover_from_url_dialog_ w)))).
    + destruct (QImage_isNull image).
      * injection E as <-. apply Hdialog.
      * eapply Htrans; [apply Hdialog | exact (Hset _ _ _ E)].
    + destruct (QImage_isNull image).
      * injection E as <-. apply Hrefl.
      * exact (Hset _ _ _ E).
  - apply by_SetAlbumArt; [exact Hrefl | exact Hset | apply SearchCover_cases].
  - exact (Hset _).
  - exact (Hset path).
Qed.

Lemma structure_kept_refl (w : World) : structure_kept w w.
Proof.
  split; [intros Hf; exact Hf | split; [intros Hf; exact Hf | split; reflexivity]].
Qed.

Lemma structure_kept_trans (w w1 w2 : World) :
  structure_kept w w1 -> structure_kept w1 w2 -> structure_kept w w2.
Proof.
  intros (F1 & V1 & D1 & M1) (F2 & V2 & D2 & M2).
  split; [intros Hf; exact (F2 (F1 Hf)) |].
  split; [intros Hf; exact (V2 (V1 Hf)) |].
  split; congruence.
Qed.

Lemma describe_setEnabled (l : list QAction) (i : nat) (a : QAction) (b : bool) :
  l !! i = Some a -> describe <$> <[i := setEnabled b a]> l = describe <$> l.
Proof.
  intros E. rewrite list_fmap_insert. apply list_insert_id.
  rewrite list_lookup_fmap, E. reflexivity.
Qed.

(** Evaluation that keeps the description of the actions folded. *)
Ltac norm_menu :=
  cbv -[int_wrap Z.add Z.sub Z.opp Z.quot Z.ltb Z.eqb Z.min Z.le Z.lt N.eqb qMin qMax
        qFuzzyCompare String.append details_html DrawContents paint_on
        QPixmap_ofSize QPixmap_isNull QPixmap_fromImage QImage_isNull art_is_set
        initial_dir search_query settings_key Mode_of_int int_of_Mode
        app lookup insert list_lookup list_insert map_insert is_Some
        bool_decide fst snd setValue value fmap list_fmap describe setEnabled].

Ltac structure_leaf :=
  split; [| split; [| split]];
  [ intros [? ?]; split; first [reflexivity | assumption]
  | let Hf := fresh "Hf" in
    let Hv := fresh "Hv" in
    intros Hf Hv;
    first [ reflexivity | discriminate Hv
          | apply Hf; first [reflexivity | assumption]
          | exfalso; congruence ]
  | reflexivity
  | reflexivity ].

Lemma contextMenuEvent_structure (x y : Z) :
  maintains structure_kept (contextMenuEvent x y).
Proof.
  apply maintains_intro; intros w.
  norm_menu; repeat (case_step; try absurd_case; norm_menu); try exact I.
  all: split; [| split; [| split]];
    [ intros [? ?]; split; assumption
    | intros Hf Hv; exact (Hf Hv)
    | reflexivity
    | ].
  all: repeat (erewrite describe_setEnabled by eassumption); reflexivity.
Qed.

Lemma simple_structure (o : Op) : is_simple o = true -> maintains structure_kept (run o).
Proof.
  destruct o; intros Hs; try discriminate Hs; cbn [run].
  all: first [apply contextMenuEvent_structure | by_evaluation structure_leaf].
Qed.

Lemma NowPlaying_structure (m : Song) : maintains structure_kept (NowPlaying m).
Proof. by_evaluation structure_leaf. Qed.

Lemma run_structure (o : Op) : maintains structure_kept (run o).
Proof.
  revert o.
  apply run_maintains;
    [ apply structure_kept_refl | apply structure_kept_trans
    | apply simple_structure | apply NowPlaying_structure | .. ];
    intros v w;
    (split; [intros Hf; exact Hf | split; [intros Hf; exact Hf | split; reflexivity]]).
Qed.

(** X1: the pointers of the widget stay valid: after every entry point the
    kitten loader still exists when kittens are on, and the action pointers
    still point into the store of actions. *)
Theorem pointers_stay_valid (o : Op) (w w' : World) :
  pointers_valid w -> run o w = Some w' -> pointers_valid w'.
Proof. intros Hv E. exact (run_keeps_pointers_valid o w w' E Hv). Qed.

(** X2: once a layout has been computed, the show/hide animation always spans
    the heights 0 to [total_height_]: every entry point keeps that range, and
    every entry point that recomputes the layout establishes it. Its duration
    never changes. *)
Theorem show_hide_frames_follow_height (o : Op) (w w' : World) :
  run o w = Some w' ->
  (frames_follow_height w -> frames_follow_height w') /\
  (recomputes_layout o w = true -> frames_follow_height w') /\
  duration (show_hide_animation_ w') = duration (show_hide_animation_ w).
Proof.
  intros E. destruct (run_structure o w w' E) as (Hf & _ & Hd & _).
  split; [exact Hf |]. split; [| exact Hd].
  intros Hr. revert E.
  assert (Hgoal : match run o w with
                  | Some w' => frames_follow_height w'
                  | None => True
                  end).
  { destruct o; try discriminate Hr; revert Hr; eval_cmd; intros Hr;
      try discriminate Hr; try exact I.
    all: split; reflexivity. }
  intros E. rewrite E in Hgoal. exact Hgoal.
Qed.

(** X3: the show/hide animation of a visible widget points forward: every
    entry point keeps that. *)
Theorem visible_widget_animates_forward (o : Op) (w w' : World) :
  forward_when_visible w -> run o w = Some w' -> forward_when_visible w'.
Proof.
  intros Hf E. destruct (run_structure o w w' E) as (_ & Hv & _). exact (Hv Hf).
Qed.


(** A leaf of the evaluation of a call in a valid world: the call gave a
    world, or one of the hypotheses on the pointers is absurd. *)
Ltac defined_leaf :=
  let Hk := fresh "Hk" in
  let Hc := fresh "Hc" in
  let Hs := fresh "Hs" in
  let Hu := fresh "Hu" in
  let Hsh := fresh "Hsh" in
  let Hb := fresh "Hb" in
  let Hl := fresh "Hl" in
  intros (Hk & Hc & Hs & Hu & Hsh) Hb Hl;
  first
    [ eexists; reflexivity
    | exfalso;
      repeat match goal with
             | E : <[_ := _]> _ !! _ = None |- _ => apply list_lookup_insert_None in E
             end;
      first
        [ destruct Hb as [? Hb]; discriminate Hb
        | destruct (Hk eq_refl) as [? Hk']; discriminate Hk'
        | destruct Hl as [? Hl]; discriminate Hl
        | destruct (Hl eq_refl) as [? Hl']; discriminate Hl'
        | destruct Hc as [? Hc]; congruence
        | destruct Hs as [? Hs]; congruence
        | destruct Hu as [? Hu]; congruence
        | destruct Hsh as [? Hsh]; congruence ] ].

(** X5: in a world whose pointers are valid and whose backend is set, every
    entry point is defined (it dereferences no null pointer), provided the
    loader passed to [UpdateHeight] or sending [CoverLoaderInitialised]
    exists. *)
Theorem defined_in_valid_world (o : Op) (w : World) :
  pointers_valid w -> is_Some (backend_ w) -> loader_of_call_available o w ->
  is_Some (run o w).
Proof.
  unfold pointers_valid, loader_of_call_available, loader_available.
  destruct o; cbn [run]; eval_cmd; defined_leaf.
Qed.

(** X6: [SetAlbumArt], and so [UnsetCover], is defined exactly when a library
    backend has been set (the loader in use being present): before
    [SetLibraryBackend] the call goes through a null pointer. *)
Theorem SetAlbumArt_needs_backend (path : QString) (w : World) :
  loader_available w ->
  (is_Some (SetAlbumArt path w) <-> is_Some (backend_ w)) /\
  (is_Some (UnsetCover w) <-> is_Some (backend_ w)).
Proof.
  unfold loader_available, UnsetCover. eval_cmd.
  all: intros Hl;
    first [ destruct (Hl eq_refl) as [? Hx]; discriminate Hx
          | split; split; intros _; eexists; reflexivity
          | split; split; intros [? Hx]; discriminate Hx ].
Qed.

Lemma fade_timeline_of_start (t : QTimeLine) :
  direction (start t) = direction t /\ duration (start t) = duration t.
Proof. split; reflexivity. Qed.

(** X7: the fade animation always runs backward, from opacity 1.0 to 0.0, in
    1000 ms: the constructor sets it up so and no entry point changes its
    direction or duration. *)
Theorem fade_always_runs_backward :
  (forall (persisted : gmap string QVariant) (geometry : QSize)
          (background : QColor) (indeterminate : Z) (w : World),
      NowPlayingWidget_new persisted geometry background indeterminate = Some w ->
      fade_runs_backward w) /\
  (forall (o : Op) (w w' : World),
      run o w = Some w' -> fade_runs_backward w -> fade_runs_backward w').
Proof.
  split.
  - intros persisted geometry background indeterminate w.
    unfold NowPlayingWidget_new.
    cbv -[value setValue Mode_of_int Mode_eqb int_of_Mode toBool].
    destruct (toBool (value "above_status_bar" (VBool false) persisted));
      intros [= <-]; split; reflexivity.
  - intros o w w' E [Hd Ht].
    assert (Hsame : fade_animation_ w' = fade_animation_ w \/
                    fade_animation_ w' = start (fade_animation_ w)).
    { destruct (is_quiet o) eqn:Hq.
      - left. destruct (run_quiet o Hq w w' E) as [(Hf & _) _]. exact Hf.
      - destruct o; try discriminate Hq; cbn [run] in E.
        + pose proof (AlbumArtLoaded_fade id image w) as HA. rewrite E in HA.
          destruct HA as [HA _].
          destruct (delivers_awaited_cover (Call_AlbumArtLoaded id image) w);
            [right; exact (proj1 HA) | left; exact (proj1 HA)].
        + left. exact (proj1 (SetMode_fade_untouched mode w w' E)).
        + left. exact (proj1 (ShowAboveStatusBar_fade_untouched above w w' E)). }
    unfold fade_runs_backward.
    destruct Hsame as [-> | ->]; split; assumption.
Qed.

(** X8: the layout of the small cover. After an entry point that recomputes
    the layout, a widget in small mode has [cover_height_] and
    [total_height_] both equal to the ideal height the main window gave, so
    its size hint is that square. *)
Theorem small_cover_layout_recomputed (o : Op) (w w' : World) :
  recomputes_layout o w = true ->
  run o w = Some w' ->
  mode_ w' = SmallSongDetails ->
  cover_height_ w' = small_ideal_height_ w' /\
  total_height_ w' = small_ideal_height_ w' /\
  sizeHint w' = {| sz_width := small_ideal_height_ w';
                   sz_height := small_ideal_height_ w' |}.
Proof.
  intros Hr E. revert E.
  assert (Hgoal : match run o w with
                  | Some w' =>
                      mode_ w' = SmallSongDetails ->
                      cover_height_ w' = small_ideal_height_ w' /\
                      total_height_ w' = small_ideal_height_ w' /\
                      sizeHint w' = {| sz_width := small_ideal_height_ w';
                                       sz_height := small_ideal_height_ w' |}
                  | None => True
                  end).
  { destruct o; try discriminate Hr; revert Hr; eval_cmd; intros Hr;
      try discriminate Hr; try exact I.
    all: intros Hm; first [exfalso; congruence | repeat split; reflexivity]. }
  intros E. rewrite E in Hgoal. exact Hgoal.
Qed.

(** X9: the maximum height is left to the show/hide animation.
    [UpdateHeight] and [NowPlaying] set the maximum height of the widget to
    [total_height_] when the widget was visible and its animation not running,
    and leave it as it was otherwise: a hidden widget is not opened, and a
    running animation is not overtaken. *)
Theorem maximum_height_left_to_animation :
  (forall (l : LoaderRef) (w w' : World),
      UpdateHeight l w = Some w' ->
      maximumHeight w' =
        if visible_ w && negb (is_Running (show_hide_animation_ w))
        then total_height_ w' else maximumHeight w) /\
  (forall (m : Song) (w w' : World),
      NowPlaying m w = Some w' ->
      maximumHeight w' =
        if visible_ w && negb (is_Running (show_hide_animation_ w))
        then total_height_ w' else maximumHeight w).
Proof.
  split.
  - intros l w w' E. revert E.
    assert (Hgoal : match UpdateHeight l w with
                    | Some w' =>
                        maximumHeight w' =
                          if visible_ w && negb (is_Running (show_hide_animation_ w))
                          then total_height_ w' else maximumHeight w
                    | None => True
                    end).
    { eval_cmd; try exact I; reflexivity. }
    intros E. rewrite E in Hgoal. exact Hgoal.
  - intros m w w' E. revert E.
    assert (Hgoal : match NowPlaying m w with
                    | Some w' =>
                        maximumHeight w' =
                          if visible_ w && negb (is_Running (show_hide_animation_ w))
                          then total_height_ w' else maximumHeight w
                    | None => True
                    end).
    { eval_cmd; try exact I; reflexivity. }
    intros E. rewrite E in Hgoal. exact Hgoal.
Qed.

Lemma cached_pixmap_null (a b : list PaintCmd) (s : QSize) :
  QPixmap_isNull (paint_on a (paint_on b (QPixmap_ofSize s))) =
  negb ((0 <? sz_width s) && (0 <? sz_height s)).
Proof.
  unfold QPixmap_ofSize.
  destruct ((0 <? sz_width s) && (0 <? sz_height s)); reflexivity.
Qed.

Lemma NowPlaying_caches (m : Song) (w : World) :
  match NowPlaying m w with
  | Some w1 =>
      metadata_ w1 = m /\
      fade_animation_ w1 = fade_animation_ w /\
      previous_track_ w1 =
        (if visible_ w
         then paint_on (DrawContents w)
                (paint_on [Fill (palette_background w)] (QPixmap_ofSize (size w)))
         else previous_track_ w)
  | None => True
  end.
Proof.
  eval_cmd; try exact I.
  all: split; [reflexivity | split; [reflexivity |]].
  all: first [ reflexivity
             | f_equal; apply DrawContents_ext; cbn;
               solve [reflexivity | assumption | symmetry; assumption] ].
Qed.

Lemma AlbumArtLoaded_awaited (image : QImage) (w : World) :
  exists w',
    AlbumArtLoaded (load_cover_id_ w) image w = Some w' /\
    cover_ w' = QPixmap_fromImage image /\
    metadata_ w' = metadata_ w /\
    previous_track_ w' = previous_track_ w /\
    fade_animation_ w' =
      if QPixmap_isNull (previous_track_ w) then fade_animation_ w
      else start (fade_animation_ w).
Proof.
  unfold AlbumArtLoaded. unfold ifte at 1. rewrite N.eqb_refl.
  eval_cmd.
  all: eexists; split; [reflexivity |]; repeat split; reflexivity.
Qed.

(** X10: the cover that answers the request of [NowPlaying]. When the loader
    delivers the image for the id [NowPlaying m] stored, the widget shows it,
    for the track [m]; the fade starts exactly when [NowPlaying] cached a
    previous-track pixmap: on a visible widget of non-empty size, or when one
    was still cached on a hidden widget. A visible widget whose size is empty
    caches a null pixmap and does not fade. *)
Theorem cover_arrives_after_NowPlaying (m : Song) (image : QImage) (w w1 : World) :
  NowPlaying m w = Some w1 ->
  exists w2,
    AlbumArtLoaded (load_cover_id_ w1) image w1 = Some w2 /\
    cover_ w2 = QPixmap_fromImage image /\
    metadata_ w2 = m /\
    QPixmap_isNull (previous_track_ w2) = negb (caches_previous_track w) /\
    fade_animation_ w2 =
      if caches_previous_track w then start (fade_animation_ w)
      else fade_animation_ w.
Proof.
  intros E. pose proof (NowPlaying_caches m w) as Hc. rewrite E in Hc.
  destruct Hc as (Hm & Hf & Hp).
  destruct (AlbumArtLoaded_awaited image w1) as (w2 & E2 & Hcover & Hm2 & Hp2 & Hf2).
  exists w2. split; [exact E2 |]. split; [exact Hcover |].
  split; [congruence |].
  assert (Hnull : QPixmap_isNull (previous_track_ w1) = negb (caches_previous_track w)).
  { rewrite Hp. unfold caches_previous_track.
    destruct (visible_ w).
    - rewrite cached_pixmap_null. reflexivity.
    - rewrite negb_involutive. reflexivity. }
  split; [rewrite Hp2; exact Hnull |].
  rewrite Hf2, Hnull, Hf. destruct (caches_previous_track w); reflexivity.
Qed.

(** X11: what is painted during and after the fade. Once [FadePreviousTrack]
    has received 0.0, the cached previous-track pixmap is dropped, whatever it
    was, and [paintEvent] paints the contents only; while it receives
    a value that does not compare equal to 0.0 and a previous-track pixmap is
    cached, [paintEvent] paints the contents and then that pixmap over them
    with the value as opacity. *)
Theorem paint_during_and_after_fade :
  (forall w w1 w2 : World,
      FadePreviousTrack 0%float w = Some w1 -> paintEvent w1 = Some w2 ->
      previous_track_ w1 = NullPixmap /\
      sent_between w1 w2 = [Eff_painted (DrawContents w)]) /\
  (forall (v : qreal) (w w1 w2 : World),
      qFuzzyCompare v 0%float = false ->
      QPixmap_isNull (previous_track_ w) = false ->
      FadePreviousTrack v w = Some w1 -> paintEvent w1 = Some w2 ->
      sent_between w1 w2 =
        [Eff_painted (DrawContents w ++
                      [SetOpacity v; DrawPixmap 0 0 (previous_track_ w)])]).
Proof.
  split.
  - intros w w1 w2.
    unfold FadePreviousTrack, paintEvent, seq, when, ifte, skip, assign, update, emit.
    cbn. change (qFuzzyCompare 0%float 0%float) with true. cbn.
    intros [= <-] [= <-]. split; [reflexivity |]. unfold sent_between. cbn.
    rewrite drop_app_length, app_nil_r. reflexivity.
  - intros v w w1 w2 Hv Hp E1 E2.
    assert (Hgoal : qFuzzyCompare v 0%float = false ->
                    QPixmap_isNull (previous_track_ w) = false ->
                    match FadePreviousTrack v w with
                    | Some w1 =>
                        match paintEvent w1 with
                        | Some w2 =>
                            sent_between w1 w2 =
                              [Eff_painted (DrawContents w ++
                                 [SetOpacity v; DrawPixmap 0 0 (previous_track_ w)])]
                        | None => True
                        end
                    | None => True
                    end).
    { eval_cmd.
      all: intros Hv' Hp'; try discriminate Hv'; try discriminate Hp'.
      all: unfold sent_between; cbn [trace]; rewrite drop_app_length; reflexivity. }
    specialize (Hgoal Hv Hp). rewrite E1, E2 in Hgoal. exact Hgoal.
Qed.

Lemma Mode_of_int_canonical (v : Z) :
  Mode_of_int (int_of_Mode (Mode_of_int v)) = Mode_of_int v.
Proof.
  unfold Mode_of_int.
  destruct (Z.eqb_spec v value_SmallSongDetails) as [-> | Hs]; cbn.
  - rewrite Z.eqb_refl. reflexivity.
  - destruct (Z.eqb_spec v value_LargeSongDetails) as [-> | Hl]; cbn.
    + destruct (Z.eqb_spec value_LargeSongDetails value_SmallSongDetails);
        [contradiction |]. rewrite Z.eqb_refl. reflexivity.
    + destruct (Z.eqb_spec v value_SmallSongDetails); [contradiction |].
      destruct (Z.eqb_spec v value_LargeSongDetails); [contradiction |]. reflexivity.
Qed.

Lemma value_setValue (name : string) (d v : QVariant) (s : gmap string QVariant) :
  value name d (setValue name v s) = v.
Proof. unfold value, setValue. rewrite lookup_insert_eq. reflexivity. Qed.

Lemma value_setValue_other (name other : string) (d v : QVariant)
    (s : gmap string QVariant) :
  name <> other -> value name d (setValue other v s) = value name d s.
Proof.
  intros Hne. unfold value, setValue, settings_key.
  rewrite lookup_insert_ne; [reflexivity |].
  intros Heq. apply Hne.
  apply (inj (String.append "/")), (inj (String.append kSettingsGroup)).
  symmetry. exact Heq.
Qed.

(** The mode and the status-bar flag a widget constructed on the settings [s]
    starts with. *)
Lemma NowPlayingWidget_new_restores (s : gmap string QVariant) (geometry : QSize)
    (background : QColor) (indeterminate : Z) :
  exists w,
    NowPlayingWidget_new s geometry background indeterminate = Some w /\
    mode_ w =
      Mode_of_int (toInt (value "mode" (VInt (int_of_Mode SmallSongDetails)) s)) /\
    show_above_status_bar w =
      Some (toBool (value "above_status_bar" (VBool false) s)).
Proof.
  unfold NowPlayingWidget_new.
  cbv -[value setValue Mode_of_int Mode_eqb int_of_Mode toBool].
  destruct (toBool (value "above_status_bar" (VBool false) s));
    eexists; split; [reflexivity | split; reflexivity | reflexivity | split; reflexivity].
Qed.

(** X12: the two settings survive a restart. The mode [SetMode] stored is the
    mode a widget constructed on the settings starts in, and the flag
    [ShowAboveStatusBar] stored is the state of the status-bar action of such
    a widget; neither slot disturbs the value of the other. *)
Theorem settings_survive_restart (geometry : QSize) (background : QColor)
    (indeterminate : Z) :
  (forall (mode : Z) (w w' : World),
      SetMode mode w = Some w' ->
      exists restarted,
        NowPlayingWidget_new (settings w') geometry background indeterminate
          = Some restarted /\
        mode_ restarted = mode_ w' /\
        show_above_status_bar restarted =
          Some (toBool (value "above_status_bar" (VBool false) (settings w)))) /\
  (forall (above : bool) (w w' : World),
      ShowAboveStatusBar above w = Some w' ->
      exists restarted,
        NowPlayingWidget_new (settings w') geometry background indeterminate
          = Some restarted /\
        show_above_status_bar restarted = Some above /\
        mode_ restarted =
          Mode_of_int (toInt (value "mode" (VInt (int_of_Mode SmallSongDetails))
                                    (settings w)))).
Proof.
  split.
  - intros mode w w' E.
    pose proof (SetMode_settings mode w w' E) as Hs. cbv beta in Hs.
    assert (Hm : mode_ w' = Mode_of_int mode).
    { revert E.
      assert (Hgoal : match SetMode mode w with
                      | Some w' => mode_ w' = Mode_of_int mode
                      | None => True
                      end) by (eval_cmd; try exact I; reflexivity).
      intros E. rewrite E in Hgoal. exact Hgoal. }
    destruct (NowPlayingWidget_new_restores (settings w') geometry background
                indeterminate) as (r & Er & Hmode & Habove).
    exists r. split; [exact Er |]. split.
    + rewrite Hmode, Hs, value_setValue. cbn [toInt].
      rewrite Hm. apply Mode_of_int_canonical.
    + rewrite Habove, Hs, value_setValue_other by discriminate. reflexivity.
  - intros above w w' E.
    assert (Hs : settings w' = setValue "above_status_bar" (VBool above) (settings w)).
    { revert E. unfold ShowAboveStatusBar, seq, assign, emit. intros [= <-]. reflexivity. }
    destruct (NowPlayingWidget_new_restores (settings w') geometry background
                indeterminate) as (r & Er & Hmode & Habove).
    exists r. split; [exact Er |]. split.
    + rewrite Habove, Hs, value_setValue. reflexivity.
    + rewrite Hmode, Hs, value_setValue_other by discriminate. reflexivity.
Qed.

(** X13: kittens. [EnableKittens aww] leaves [aww_] equal to [aww], never
    removes the kitten loader, and leaves one present when [aww] is true.
    Switching off changes the flag only. The first switching on creates the
    loader and starts its thread without requesting a cover. Switching on
    again, with the flag off and the loader present, reloads the current
    track through the cover loader: the kitten loader receives nothing. *)
Theorem EnableKittens_behaviour :
  (forall (aww : bool) (w w' : World),
      EnableKittens aww w = Some w' ->
      aww_ w' = aww /\
      (aww = true -> is_Some (kitten_loader_ w')) /\
      (is_Some (kitten_loader_ w) -> is_Some (kitten_loader_ w'))) /\
  (forall w : World, EnableKittens false w = Some (set_aww_ false w)) /\
  (forall w : World,
      kitten_loader_ w = None ->
      EnableKittens true w =
        Some (set_aww_ true
                (set_trace (trace w ++ [Eff_loader_thread_started KittenLoaderRef])
                   (set_kitten_loader_ (Some new_KittenLoader) w)))) /\
  (forall (w w' : World) (k : AlbumCoverLoader),
      kitten_loader_ w = Some k -> aww_ w = false ->
      EnableKittens true w = Some w' ->
      kitten_loader_ w' = Some k /\
      cover_loader_ w' =
        snd (LoadImageAsync (metadata_ w)
               (SetDefaultOutputImage (QImage_fromFile ":nocover.png")
                  (SetDesiredHeight (cover_height_ w') (cover_loader_ w)))) /\
      load_cover_id_ w' =
        fst (LoadImageAsync (metadata_ w)
               (SetDefaultOutputImage (QImage_fromFile ":nocover.png")
                  (SetDesiredHeight (cover_height_ w') (cover_loader_ w))))).
Proof.
  split; [| split; [| split]].
  - intros aww w w' E. revert E.
    assert (Hgoal : match EnableKittens aww w with
                    | Some w' =>
                        aww_ w' = aww /\
                        (aww = true -> is_Some (kitten_loader_ w')) /\
                        (is_Some (kitten_loader_ w) -> is_Some (kitten_loader_ w'))
                    | None => True
                    end).
    { eval_cmd; try exact I.
      all: split; [reflexivity | split].
      all: intros Hx;
        first [ discriminate Hx | exact Hx | eexists; reflexivity
              | eexists; eassumption
              | match goal with
                | E : bool_decide _ = true |- _ =>
                    apply bool_decide_eq_true in E; exact E
                | E : bool_decide _ = false |- _ =>
                    apply bool_decide_eq_false in E; exfalso; apply E; exact Hx
                end
              | destruct Hx as [? Hx]; discriminate Hx ]. }
    intros E. rewrite E in Hgoal. exact Hgoal.
  - intros w. unfold EnableKittens, seq, assign, skip.
    rewrite andb_false_r. reflexivity.
  - intros w Hk. unfold EnableKittens, seq, assign, emit.
    rewrite Hk. reflexivity.
  - intros w w' k Hk Ha E. revert E.
    assert (Hgoal : kitten_loader_ w = Some k -> aww_ w = false ->
                    match EnableKittens true w with
                    | Some w' =>
                        kitten_loader_ w' = Some k /\
                        cover_loader_ w' =
                          snd (LoadImageAsync (metadata_ w)
                                 (SetDefaultOutputImage (QImage_fromFile ":nocover.png")
                                    (SetDesiredHeight (cover_height_ w')
                                       (cover_loader_ w)))) /\
                        load_cover_id_ w' =
                          fst (LoadImageAsync (metadata_ w)
                                 (SetDefaultOutputImage (QImage_fromFile ":nocover.png")
                                    (SetDesiredHeight (cover_height_ w')
                                       (cover_loader_ w))))
                    | None => True
                    end).
    { eval_cmd; try (intros; exact I).
      all: intros Hk' Ha'; try discriminate Ha'; try discriminate Hk'.
      all: first [ repeat split; solve [reflexivity | assumption]
                 | exfalso;
                   match goal with
                   | E : bool_decide _ = false |- _ =>
                       apply bool_decide_eq_false in E; apply E;
                       eexists; first [reflexivity | eassumption]
                   end ]. }
    intros E. specialize (Hgoal Hk Ha). rewrite E in Hgoal. exact Hgoal.
Qed.

(** X14: the details text follows the layout. After [NowPlaying], [SetMode] or
    a [resizeEvent] that recomputes the layout, the text of a widget in large
    mode is laid out to the width of the cover, the smaller of 260 and the
    width of the widget, in small white type; in small mode it has no width
    limit and no style sheet. *)
Theorem details_follow_layout (o : Op) (w w' : World) :
  rebuilds_details o w = true ->
  run o w = Some w' ->
  match mode_ w' with
  | SmallSongDetails =>
      textWidth (details_ w') = -1 /\ defaultStyleSheet (details_ w') = ""
  | LargeSongDetails =>
      textWidth (details_ w') = Z.min kMaxCoverSize (width w') /\
      textWidth (details_ w') = cover_height_ w' /\
      defaultStyleSheet (details_ w') = "p {  font-size: small;  color: white;}"
  | UnnamedMode _ =>
      textWidth (details_ w') = textWidth (details_ w) /\
      defaultStyleSheet (details_ w') = defaultStyleSheet (details_ w)
  end.
Proof.
  intros Hr E. revert E.
  assert (Hgoal : match run o w with
                  | Some w' =>
                      match mode_ w' with
                      | SmallSongDetails =>
                          textWidth (details_ w') = -1 /\
                          defaultStyleSheet (details_ w') = ""
                      | LargeSongDetails =>
                          textWidth (details_ w') = Z.min kMaxCoverSize (width w') /\
                          textWidth (details_ w') = cover_height_ w' /\
                          defaultStyleSheet (details_ w') =
                            "p {  font-size: small;  color: white;}"
                      | UnnamedMode _ =>
                          textWidth (details_ w') = textWidth (details_ w) /\
                          defaultStyleSheet (details_ w') = defaultStyleSheet (details_ w)
                      end
                  | None => True
                  end).
  { destruct o; try discriminate Hr; revert Hr; eval_cmd; intros Hr;
      try discriminate Hr; try exact I.
    all: rewrite ?qMin_min; repeat split; reflexivity. }
  intros E. rewrite E in Hgoal. exact Hgoal.
Qed.

(** X15: the hypnotoad. While it is on, the picture [DrawContents] draws is
    the current frame of the movie, at the place and size of the cover, and
    no pixmap other than that frame is drawn, whatever the cover is;
    switching it on and off again leaves what [DrawContents] draws as it was,
    and neither call touches the cover, the track, the request awaited or the
    cached previous-track pixmap. *)
Theorem hypnotoad_replaces_picture :
  (forall w w1 : World,
      AllHail true w = Some w1 ->
      let frame :=
        MovieFrame {| movie_path := kHypnotoadPath; movie_running := true |} in
      match mode_ w with
      | SmallSongDetails =>
          In (DrawPixmapScaled 0 0 (small_ideal_height_ w) (small_ideal_height_ w) frame)
             (DrawContents w1)
      | LargeSongDetails =>
          In (DrawPixmapScaled (int_sub (width w) (cover_height_ w) ÷ 2) kTopBorder
                (qMin kMaxCoverSize (width w)) (qMin kMaxCoverSize (width w)) frame)
             (DrawContents w1)
      | UnnamedMode _ => DrawContents w1 = []
      end /\
      (forall c : PaintCmd,
          In c (DrawContents w1) ->
          match c with
          | DrawPixmap _ _ p | DrawPixmapScaled _ _ _ _ p => p = frame
          | _ => True
          end)) /\
  (forall w w1 w2 : World,
      hypnotoad_ w = None ->
      AllHail true w = Some w1 -> AllHail false w1 = Some w2 ->
      DrawContents w2 = DrawContents w) /\
  (forall (b : bool) (w w1 : World),
      AllHail b w = Some w1 ->
      cover_ w1 = cover_ w /\ metadata_ w1 = metadata_ w /\
      load_cover_id_ w1 = load_cover_id_ w /\
      previous_track_ w1 = previous_track_ w).
Proof.
  split; [| split].
  - intros w w1. unfold AllHail, seq, assign, emit, update. intros [= <-]. cbv zeta.
    unfold DrawContents, current_picture.
    cbn -[In int_sub int_add int_neg qMin Z.quot].
    destruct (mode_ w); (split; [| intros c Hc]).
    all: try reflexivity.
    all: try (cbn [In]; tauto).
    all: cbn [In] in Hc.
    all: repeat (destruct Hc as [<- | Hc]; [first [reflexivity | exact I] |]).
    all: contradiction.
  - intros w w1 w2 Hn. unfold AllHail, seq, assign, emit, update.
    intros [= <-] [= <-]. apply DrawContents_ext; try reflexivity.
    cbn. symmetry. exact Hn.
  - intros b w w1. destruct b; unfold AllHail, seq, assign, emit, update;
      intros [= <-]; repeat split; reflexivity.
Qed.

(** Four calls of [setEnabled] through pointers into a store: two with
    [false], then two with [b] through pointers other than the first two. *)
Lemma setEnabled_false_kept (l : list QAction) (c s u sh : nat) (b : bool)
    (ac : QAction) :
  l !! c = Some ac -> is_Some (l !! s) -> is_Some (l !! u) -> is_Some (l !! sh) ->
  c <> u -> c <> sh -> s <> u -> s <> sh ->
  exists as' au ash,
    <[c := setEnabled false ac]> l !! s = Some as' /\
    <[s := setEnabled false as']> (<[c := setEnabled false ac]> l) !! u = Some au /\
    <[u := setEnabled b au]>
      (<[s := setEnabled false as']> (<[c := setEnabled false ac]> l)) !! sh
      = Some ash /\
    enabled <$>
      <[sh := setEnabled b ash]>
        (<[u := setEnabled b au]>
           (<[s := setEnabled false as']> (<[c := setEnabled false ac]> l))) !! c
      = Some false /\
    enabled <$>
      <[sh := setEnabled b ash]>
        (<[u := setEnabled b au]>
           (<[s := setEnabled false as']> (<[c := setEnabled false ac]> l))) !! s
      = Some false.
Proof.
  intros Ec Hs Hu Hsh Hcu Hcsh Hsu Hssh.
  destruct (setEnabled_twice l c s false ac Ec Hs) as (as' & Es & Hc2 & Hs2).
  assert (Hu2 : is_Some (<[s := setEnabled false as']>
                           (<[c := setEnabled false ac]> l) !! u))
    by (rewrite !list_lookup_insert_is_Some; exact Hu).
  destruct Hu2 as [au Eu].
  assert (Hsh3 : is_Some (<[u := setEnabled b au]>
                            (<[s := setEnabled false as']>
                               (<[c := setEnabled false ac]> l)) !! sh))
    by (rewrite !list_lookup_insert_is_Some; exact Hsh).
  destruct Hsh3 as [ash Esh].
  exists as', au, ash. repeat split; try assumption.
  - rewrite !list_lookup_insert_ne by (intros Heq; congruence). exact Hc2.
  - rewrite !list_lookup_insert_ne by (intros Heq; congruence). exact Hs2.
Qed.

(** X16: a build without last.fm support. There, loading a cover from disk
    and searching for covers do nothing, whatever the user would choose, and
    every context-menu event disables these two actions (their pointers being
    other than those of "Unset cover" and "Show fullsize", as the constructor
    makes them). *)
Theorem without_lastfm_support :
  HAVE_LIBLASTFM = false ->
  (forall (f : QString -> NullableQString) (w : World),
      LoadCoverFromFile f w = Some w) /\
  (forall (g : QString -> QImage) (w : World), SearchCover g w = Some w) /\
  (forall (x y : Z) (w : World),
      pointers_valid w ->
      choose_cover_ w <> unset_cover_ w -> choose_cover_ w <> show_cover_ w ->
      search_for_cover_ w <> unset_cover_ w -> search_for_cover_ w <> show_cover_ w ->
      exists w',
        contextMenuEvent x y w = Some w' /\
        enabled <$> actions w' !! choose_cover_ w' = Some false /\
        enabled <$> actions w' !! search_for_cover_ w' = Some false).
Proof.
  intros Hno. split; [| split].
  - intros f w. unfold LoadCoverFromFile. rewrite Hno. reflexivity.
  - intros g w. unfold SearchCover. rewrite Hno. reflexivity.
  - intros x y w (_ & [ac Ec] & Hs & Hu & Hsh) Hcu Hcsh Hsu Hssh.
    destruct (setEnabled_false_kept _ _ _ _ _ (art_is_set w) ac Ec Hs Hu Hsh
                Hcu Hcsh Hsu Hssh)
      as (as' & au & ash & Es & Eu & Esh & Hc4 & Hs4).
    unfold contextMenuEvent. rewrite Hno. unfold seq, on_action, emit. cbv beta zeta.
    tested_is (Some ac) Ec. cbn.
    tested_is (Some as') Es. cbn.
    tested_is (Some au) Eu. cbn.
    tested_is (Some ash) Esh. cbn.
    eexists. split; [reflexivity |]. split; [exact Hc4 | exact Hs4].
Qed.

(** X17: a resize of a hidden widget. The resize event of a hidden widget
    changes no member, so in large mode the layout keeps the cover height of
    the old width; the next [NowPlaying] lays the widget out for the new
    width. *)
Theorem hidden_resize_relaid_on_next_track (s : QSize) (m : Song) (w w1 w2 : World) :
  visible_ w = false ->
  resized_to s w = Some w1 ->
  NowPlaying m w1 = Some w2 ->
  w1 = set_height (sz_height s) (set_width (sz_width s) w) /\
  cover_height_ w1 = cover_height_ w /\
  (mode_ w = LargeSongDetails ->
   cover_height_ w2 = Z.min kMaxCoverSize (sz_width s) /\
   total_height_ w2 = kTopBorder + cover_height_ w2).
Proof.
  intros Hv E1 E2.
  assert (Hw1 : w1 = set_height (sz_height s) (set_width (sz_width s) w)).
  { revert E1. unfold resized_to, resizeEvent, seq, modify, when, ifte, skip.
    cbn. replace (visible_ w) with false by (symmetry; exact Hv). cbn.
    intros [= <-]. reflexivity. }
  split; [exact Hw1 |]. split; [rewrite Hw1; reflexivity |].
  intros Hm. subst w1. revert E2.
  assert (Hgoal : mode_ w = LargeSongDetails ->
                  match NowPlaying m (set_height (sz_height s)
                                        (set_width (sz_width s) w)) with
                  | Some w2 =>
                      cover_height_ w2 = Z.min kMaxCoverSize (sz_width s) /\
                      total_height_ w2 = kTopBorder + cover_height_ w2
                  | None => True
                  end).
  { eval_cmd; intros Hm'; try discriminate Hm'; try exact I.
    all: rewrite ?qMin_min; split; [reflexivity | lia]. }
  intros E2. specialize (Hgoal Hm). rewrite E2 in Hgoal. exact Hgoal.
Qed.

End Properties.

(** * The properties on a running widget *)

Lemma new_widget_loader_available : loader_available new_widget.
Proof. intros Hf. vm_compute in Hf. discriminate Hf. Qed.

Lemma playing_loader_available : loader_available playing.
Proof. intros Hf. vm_compute in Hf. discriminate Hf. Qed.

Lemma fade_between_tracks_witness :
  loader_available playing /\ visible_ playing = true /\
  (exists w',
      NowPlaying song1 playing = Some w' /\
      previous_track_ w' =
        paint_on (DrawContents playing)
          (paint_on [Fill (palette_background playing)]
             (QPixmap_ofSize (size playing))) /\
      previous_track_opacity_ w' = 1%float).
Proof.
  assert (Hv : visible_ playing = true) by (vm_compute; reflexivity).
  split; [exact playing_loader_available |]. split; [exact Hv |].
  exact (proj1 (@fade_between_tracks desktop) song1 playing
               playing_loader_available Hv).
Defined.

Lemma settings_written_by_two_slots_only_witness :
  run (Call_SetMode 1) playing = Some (after (SetMode 1) playing) /\
  settings (after (SetMode 1) playing) =
    match stored_setting (Call_SetMode 1) (after (SetMode 1) playing) with
    | Some (name, v) => setValue name v (settings playing)
    | None => settings playing
    end.
Proof.
  assert (E : run (Call_SetMode 1) playing = Some (after (SetMode 1) playing))
    by (vm_compute; reflexivity).
  split; [exact E |].
  exact (@settings_written_by_two_slots_only desktop _ _ _ E).
Defined.

(** C2 as stated fails: [SetMode] modifies the persistent settings. *)
Lemma SetMode_modifies_settings :
  ~ (forall (o : Op) (w w' : @World desktop),
        run o w = Some w' -> settings w' = settings w).
Proof.
  intros Hc.
  assert (E : run (Call_SetMode 1) playing = Some (after (SetMode 1) playing))
    by (vm_compute; reflexivity).
  specialize (Hc _ _ _ E).
  apply (f_equal (fun s => s !! "NowPlayingWidget/mode")) in Hc.
  vm_compute in Hc. discriminate Hc.
Qed.

Lemma AlbumArtLoaded_stale_id_ignored_witness :
  7%N <> load_cover_id_ playing /\
  AlbumArtLoaded 7%N (ImageOf "late.png") playing = Some playing.
Proof.
  assert (Hid : 7%N <> load_cover_id_ playing) by (vm_compute; discriminate).
  split; [exact Hid | exact (AlbumArtLoaded_stale_id_ignored 7%N _ playing Hid)].
Defined.

Lemma NowPlaying_reflects_metadata_witness :
  loader_available new_widget /\
  exists w',
    NowPlaying song1 new_widget = Some w' /\ metadata_ w' = song1 /\
    cover_ w' = NullPixmap /\
    html_ (details_ w') =
      "<p><i>Blue &lt;Train&gt;</i><br/>John Coltrane<br/>Blue Train</p>" /\
    visible_ w' = true.
Proof.
  split; [exact new_widget_loader_available |].
  destruct (@NowPlaying_reflects_metadata desktop song1 new_widget new_widget_loader_available)
    as (w' & E & Hm & Hc & Hh & _ & Hv).
  exists w'. split; [exact E |]. split; [exact Hm |]. split; [exact Hc |].
  split; [| exact Hv].
  rewrite Hh. vm_compute. reflexivity.
Defined.


Lemma null_cover_sets_no_album_art_witness :
  LoadCoverFromFile cancelled_dialog playing = Some playing /\
  QImage_isNull NullImage = true /\
  LoadCoverFromURL NullImage playing =
    Some (set_cover_from_url_dialog_ (Some new_CoverFromURLDialog) playing) /\
  SearchCover cancelled_search playing = Some playing.
Proof.
  destruct (@null_cover_sets_no_album_art desktop) as (Hfile & Hurl & Hsearch).
  split; [apply Hfile; left; reflexivity |].
  split; [reflexivity |].
  split; [exact (Hurl NullImage playing eq_refl) | apply Hsearch; reflexivity].
Defined.

(** C6 as stated fails: the first [LoadCoverFromURL] changes the widget even
    when the dialog returns a null image. *)
Lemma LoadCoverFromURL_null_changes_widget :
  ~ (forall (image : QImage) (w : @World desktop),
        QImage_isNull image = true -> LoadCoverFromURL image w = Some w).
Proof.
  intros Hc. specialize (Hc NullImage playing eq_refl).
  apply (f_equal (fun r => cover_from_url_dialog_ <$> r)) in Hc.
  vm_compute in Hc. discriminate Hc.
Qed.

Lemma album_art_delegated_to_backend_witness :
  backend_ playing = Some (BackendPtr 1) /\ loader_available playing /\
  exists w',
    SetAlbumArt "covers/new.jpg" playing = Some w' /\
    art_manual (metadata_ w') = "covers/new.jpg" /\
    head (sent_between playing w') =
      Some (Eff_UpdateManualAlbumArtAsync "John Coltrane" "Blue Train" "covers/new.jpg").
Proof.
  assert (Hb : backend_ playing = Some (BackendPtr 1)) by (vm_compute; reflexivity).
  split; [exact Hb |]. split; [exact playing_loader_available |].
  destruct (@album_art_delegated_to_backend desktop "covers/new.jpg" playing _ Hb
              playing_loader_available)
    as (_ & _ & w' & E & _ & Hart & Hcall).
  exists w'. repeat split; assumption.
Defined.

Lemma large_cover_layout_recomputed_witness :
  recomputes_layout (Call_SetMode 1) playing = true /\
  loader_of_call_available (Call_SetMode 1) playing /\
  exists w',
    run (Call_SetMode 1) playing = Some w' /\
    mode_ w' = LargeSongDetails /\
    cover_height_ w' = 260 /\ total_height_ w' = 264.
Proof.
  assert (Hr : recomputes_layout (Call_SetMode 1) playing = true) by reflexivity.
  split; [exact Hr |]. split; [exact playing_loader_available |].
  destruct (@large_cover_layout_recomputed desktop (Call_SetMode 1) playing Hr)
    as (Hlayout & Hdefined).
  destruct (Hdefined playing_loader_available) as (w' & E).
  assert (Hm : mode_ w' = LargeSongDetails).
  { assert (Hrun : run (Call_SetMode 1) playing = Some (after (SetMode 1) playing))
      by (vm_compute; reflexivity).
    rewrite Hrun in E. injection E as <-. vm_compute. reflexivity. }
  assert (Hw : width w' = 300).
  { assert (Hrun : run (Call_SetMode 1) playing = Some (after (SetMode 1) playing))
      by (vm_compute; reflexivity).
    rewrite Hrun in E. injection E as <-. vm_compute. reflexivity. }
  destruct (Hlayout w' E Hm) as (Hc & _ & Ht).
  exists w'. split; [exact E |]. split; [exact Hm |].
  rewrite Hw in Hc. unfold kMaxCoverSize, kTopBorder in *. split; lia.
Defined.

Lemma playing_pointers_valid : pointers_valid playing.
Proof.
  split; [exact playing_loader_available |].
  vm_compute. repeat split; eexists; reflexivity.
Qed.

Lemma context_menu_enables_unset_and_show_witness :
  pointers_valid playing /\
  exists w',
    contextMenuEvent 10 10 playing = Some w' /\
    enabled <$> actions w' !! unset_cover_ w' = Some true /\
    enabled <$> actions w' !! show_cover_ w' = Some true.
Proof.
  split; [exact playing_pointers_valid |].
  destruct (@context_menu_enables_unset_and_show desktop 10 10 playing
              playing_pointers_valid) as (w' & E & Hu & Hs & _).
  exists w'. repeat split; assumption.
Defined.

(** * The further properties on a running widget *)

Lemma pointers_stay_valid_witness :
  pointers_valid playing /\
  run Call_Stopped playing = Some (after Stopped playing) /\
  pointers_valid (after Stopped playing).
Proof.
  assert (E : run Call_Stopped playing = Some (after Stopped playing))
    by (vm_compute; reflexivity).
  split; [exact playing_pointers_valid |]. split; [exact E |].
  exact (@pointers_stay_valid desktop _ _ _ playing_pointers_valid E).
Defined.

Lemma show_hide_frames_follow_height_witness :
  run (Call_NowPlaying song1) new_widget = Some (after (NowPlaying song1) new_widget) /\
  recomputes_layout (Call_NowPlaying song1) new_widget = true /\
  frames_follow_height (after (NowPlaying song1) new_widget).
Proof.
  assert (E : run (Call_NowPlaying song1) new_widget
              = Some (after (NowPlaying song1) new_widget))
    by (vm_compute; reflexivity).
  split; [exact E |]. split; [reflexivity |].
  exact (proj1 (proj2 (@show_hide_frames_follow_height desktop _ _ _ E)) eq_refl).
Defined.

Lemma visible_widget_animates_forward_witness :
  forward_when_visible playing /\
  run (Call_SetMode 1) playing = Some (after (SetMode 1) playing) /\
  forward_when_visible (after (SetMode 1) playing).
Proof.
  assert (Hf : forward_when_visible playing) by (intros _; vm_compute; reflexivity).
  assert (E : run (Call_SetMode 1) playing = Some (after (SetMode 1) playing))
    by (vm_compute; reflexivity).
  split; [exact Hf |]. split; [exact E |].
  exact (@visible_widget_animates_forward desktop _ _ _ Hf E).
Defined.


Lemma playing_backend_set : is_Some (backend_ playing).
Proof. vm_compute. eexists. reflexivity. Qed.

Lemma defined_in_valid_world_witness :
  pointers_valid playing /\ is_Some (backend_ playing) /\
  loader_of_call_available Call_UnsetCover playing /\
  is_Some (run Call_UnsetCover playing).
Proof.
  split; [exact playing_pointers_valid |]. split; [exact playing_backend_set |].
  split; [exact playing_loader_available |].
  exact (@defined_in_valid_world desktop Call_UnsetCover playing
           playing_pointers_valid playing_backend_set playing_loader_available).
Defined.

Lemma SetAlbumArt_needs_backend_witness :
  loader_available new_widget /\
  backend_ new_widget = None /\
  ~ is_Some (UnsetCover new_widget).
Proof.
  split; [exact new_widget_loader_available |]. split; [reflexivity |].
  intros Hd.
  destruct (proj1 (proj2 (@SetAlbumArt_needs_backend desktop "" new_widget
                            new_widget_loader_available)) Hd) as [b Hb].
  vm_compute in Hb. discriminate Hb.
Defined.

Lemma fade_always_runs_backward_witness :
  fade_runs_backward new_widget /\ fade_runs_backward playing.
Proof.
  destruct (@fade_always_runs_backward desktop) as [Hnew Hrun].
  assert (Hn : fade_runs_backward new_widget).
  { apply (Hnew ∅ {| sz_width := 300; sz_height := 0 |}
                {| red := 239; green := 239; blue := 239; alpha := 255 |} 0).
    vm_compute. reflexivity. }
  split; [exact Hn |].
  assert (E1 : run (Call_SetLibraryBackend (Some (BackendPtr 1))) new_widget
               = Some (after (SetLibraryBackend (Some (BackendPtr 1))) new_widget))
    by (vm_compute; reflexivity).
  assert (E2 : run (Call_set_ideal_height 48)
                   (after (SetLibraryBackend (Some (BackendPtr 1))) new_widget)
               = Some (after (set_ideal_height 48)
                         (after (SetLibraryBackend (Some (BackendPtr 1))) new_widget)))
    by (vm_compute; reflexivity).
  pose proof (Hrun _ _ _ E2 (Hrun _ _ _ E1 Hn)) as H2.
  split; [exact (proj1 H2) | exact (proj2 H2)].
Defined.

Lemma small_cover_layout_recomputed_witness :
  recomputes_layout (Call_set_ideal_height 48) new_widget = true /\
  run (Call_set_ideal_height 48) new_widget
    = Some (after (set_ideal_height 48) new_widget) /\
  mode_ (after (set_ideal_height 48) new_widget) = SmallSongDetails /\
  cover_height_ (after (set_ideal_height 48) new_widget) = 48 /\
  total_height_ (after (set_ideal_height 48) new_widget) = 48.
Proof.
  assert (E : run (Call_set_ideal_height 48) new_widget
              = Some (after (set_ideal_height 48) new_widget))
    by (vm_compute; reflexivity).
  assert (Hm : mode_ (after (set_ideal_height 48) new_widget) = SmallSongDetails)
    by (vm_compute; reflexivity).
  split; [reflexivity |]. split; [exact E |]. split; [exact Hm |].
  destruct (@small_cover_layout_recomputed desktop (Call_set_ideal_height 48) new_widget _
              eq_refl E Hm) as (Hc & Ht & _).
  split; [exact Hc | exact Ht].
Defined.

Lemma maximum_height_left_to_animation_witness :
  NowPlaying song1 new_widget = Some (after (NowPlaying song1) new_widget) /\
  visible_ new_widget = false /\
  maximumHeight (after (NowPlaying song1) new_widget) = maximumHeight new_widget.
Proof.
  assert (E : NowPlaying song1 new_widget = Some (after (NowPlaying song1) new_widget))
    by (vm_compute; reflexivity).
  split; [exact E |]. split; [reflexivity |].
  exact (proj2 (@maximum_height_left_to_animation desktop) song1 new_widget _ E).
Defined.

Lemma cover_arrives_after_NowPlaying_witness :
  NowPlaying song1 playing = Some (after (NowPlaying song1) playing) /\
  caches_previous_track playing = true /\
  exists w2,
    AlbumArtLoaded (load_cover_id_ (after (NowPlaying song1) playing))
      (ImageOf "blue.png") (after (NowPlaying song1) playing) = Some w2 /\
    cover_ w2 = FromImage "blue.png" /\
    QPixmap_isNull (previous_track_ w2) = false /\
    state (fade_animation_ w2) = Running.
Proof.
  assert (E : NowPlaying song1 playing = Some (after (NowPlaying song1) playing))
    by (vm_compute; reflexivity).
  split; [exact E |]. split; [reflexivity |].
  destruct (@cover_arrives_after_NowPlaying desktop song1 (ImageOf "blue.png")
              playing _ E) as (w2 & E2 & Hc & _ & Hp & Hf).
  exists w2. split; [exact E2 |]. split; [exact Hc |]. split; [exact Hp |].
  rewrite Hf. reflexivity.
Defined.

Lemma paint_during_and_after_fade_witness :
  QPixmap_isNull (previous_track_ fading) = false /\
  (FadePreviousTrack 0%float fading = Some (after (FadePreviousTrack 0%float) fading) /\
   paintEvent (after (FadePreviousTrack 0%float) fading)
     = Some (after paintEvent (after (FadePreviousTrack 0%float) fading)) /\
   previous_track_ (after (FadePreviousTrack 0%float) fading) = NullPixmap /\
   sent_between (after (FadePreviousTrack 0%float) fading)
     (after paintEvent (after (FadePreviousTrack 0%float) fading))
     = [Eff_painted (DrawContents fading)]) /\
  (qFuzzyCompare 0.5%float 0%float = false /\
   FadePreviousTrack 0.5%float fading
     = Some (after (FadePreviousTrack 0.5%float) fading) /\
   paintEvent (after (FadePreviousTrack 0.5%float) fading)
     = Some (after paintEvent (after (FadePreviousTrack 0.5%float) fading)) /\
   sent_between (after (FadePreviousTrack 0.5%float) fading)
     (after paintEvent (after (FadePreviousTrack 0.5%float) fading))
     = [Eff_painted (DrawContents fading ++
                     [SetOpacity 0.5%float; DrawPixmap 0 0 (previous_track_ fading)])]).
Proof.
  assert (Hp : QPixmap_isNull (previous_track_ fading) = false)
    by (vm_compute; reflexivity).
  assert (E1 : FadePreviousTrack 0%float fading
               = Some (after (FadePreviousTrack 0%float) fading))
    by (vm_compute; reflexivity).
  assert (E2 : paintEvent (after (FadePreviousTrack 0%float) fading)
               = Some (after paintEvent (after (FadePreviousTrack 0%float) fading)))
    by (vm_compute; reflexivity).
  assert (Hv : qFuzzyCompare 0.5%float 0%float = false) by (vm_compute; reflexivity).
  assert (E3 : FadePreviousTrack 0.5%float fading
               = Some (after (FadePreviousTrack 0.5%float) fading))
    by (vm_compute; reflexivity).
  assert (E4 : paintEvent (after (FadePreviousTrack 0.5%float) fading)
               = Some (after paintEvent (after (FadePreviousTrack 0.5%float) fading)))
    by (vm_compute; reflexivity).
  destruct (@paint_during_and_after_fade desktop) as [Hzero Hfade].
  destruct (Hzero _ _ _ E1 E2) as [Hdrop Hpaint].
  split; [exact Hp |]. split.
  - split; [exact E1 |]. split; [exact E2 |]. split; [exact Hdrop | exact Hpaint].
  - split; [exact Hv |]. split; [exact E3 |]. split; [exact E4 |].
    exact (Hfade 0.5%float fading _ _ Hv Hp E3 E4).
Defined.

Lemma settings_survive_restart_witness :
  SetMode 1 playing = Some (after (SetMode 1) playing) /\
  exists restarted,
    @NowPlayingWidget_new desktop (settings (after (SetMode 1) playing))
      {| sz_width := 300; sz_height := 0 |} Qt_black 0 = Some restarted /\
    mode_ restarted = LargeSongDetails.
Proof.
  assert (E : SetMode 1 playing = Some (after (SetMode 1) playing))
    by (vm_compute; reflexivity).
  split; [exact E |].
  destruct (proj1 (@settings_survive_restart desktop
                     {| sz_width := 300; sz_height := 0 |} Qt_black 0) 1 playing _ E)
    as (r & Er & Hm & _).
  exists r. split; [exact Er |]. rewrite Hm. vm_compute. reflexivity.
Defined.

Lemma EnableKittens_behaviour_witness :
  kitten_loader_ playing = None /\
  EnableKittens true playing = Some (after (EnableKittens true) playing) /\
  aww_ (after (EnableKittens true) playing) = true /\
  is_Some (kitten_loader_ (after (EnableKittens true) playing)).
Proof.
  assert (E : EnableKittens true playing = Some (after (EnableKittens true) playing))
    by (vm_compute; reflexivity).
  split; [reflexivity |]. split; [exact E |].
  destruct (proj1 (@EnableKittens_behaviour desktop) true playing _ E) as (Ha & Hk & _).
  split; [exact Ha | exact (Hk eq_refl)].
Defined.

Lemma new_widget_without_lastfm_valid : pointers_valid new_widget_without_lastfm.
Proof.
  split; [intros Hf; vm_compute in Hf; discriminate Hf |].
  vm_compute. repeat split; eexists; reflexivity.
Qed.

Lemma without_lastfm_support_witness :
  @HAVE_LIBLASTFM desktop_without_lastfm = false /\
  LoadCoverFromFile chosen_file new_widget_without_lastfm
    = Some new_widget_without_lastfm /\
  exists w',
    contextMenuEvent 10 10 new_widget_without_lastfm = Some w' /\
    enabled <$> actions w' !! choose_cover_ w' = Some false /\
    enabled <$> actions w' !! search_for_cover_ w' = Some false.
Proof.
  destruct (@without_lastfm_support desktop_without_lastfm eq_refl)
    as (Hfile & _ & Hmenu).
  split; [reflexivity |]. split; [exact (Hfile chosen_file new_widget_without_lastfm) |].
  apply (Hmenu 10 10 new_widget_without_lastfm new_widget_without_lastfm_valid);
    vm_compute; discriminate.
Defined.

Lemma hypnotoad_replaces_picture_witness :
  cover_ shown = FromImage "blue.png" /\
  hypnotoad_ shown = None /\
  AllHail true shown = Some (after (AllHail true) shown) /\
  In (DrawPixmapScaled 0 0 48 48
        (MovieFrame {| movie_path := ":/hypnotoad.gif"; movie_running := true |}))
     (DrawContents (after (AllHail true) shown)) /\
  ~ In (DrawPixmapScaled 0 0 48 48 (FromImage "blue.png"))
       (DrawContents (after (AllHail true) shown)) /\
  AllHail false (after (AllHail true) shown)
    = Some (after (AllHail false) (after (AllHail true) shown)) /\
  DrawContents (after (AllHail false) (after (AllHail true) shown))
    = DrawContents shown.
Proof.
  assert (E1 : AllHail true shown = Some (after (AllHail true) shown))
    by (vm_compute; reflexivity).
  assert (E2 : AllHail false (after (AllHail true) shown)
               = Some (after (AllHail false) (after (AllHail true) shown)))
    by (vm_compute; reflexivity).
  destruct (@hypnotoad_replaces_picture desktop) as (Hon & Honoff & _).
  destruct (Hon shown _ E1) as [Hin Honly].
  split; [vm_compute; reflexivity |]. split; [reflexivity |]. split; [exact E1 |].
  split; [| split; [| split; [exact E2 |]]].
  - vm_compute in Hin |- *. exact Hin.
  - intros Hcover. specialize (Honly _ Hcover). cbv beta iota zeta in Honly.
    discriminate Honly.
  - exact (Honoff shown _ _ eq_refl E1 E2).
Defined.

Lemma details_follow_layout_witness :
  rebuilds_details (Call_SetMode 1) playing = true /\
  run (Call_SetMode 1) playing = Some (after (SetMode 1) playing) /\
  textWidth (details_ (after (SetMode 1) playing)) = 260.
Proof.
  assert (E : run (Call_SetMode 1) playing = Some (after (SetMode 1) playing))
    by (vm_compute; reflexivity).
  split; [reflexivity |]. split; [exact E |].
  pose proof (@details_follow_layout desktop (Call_SetMode 1) playing _ eq_refl E) as Hd.
  assert (Hm : mode_ (after (SetMode 1) playing) = LargeSongDetails)
    by (vm_compute; reflexivity).
  rewrite Hm in Hd. destruct Hd as (Hw & _). rewrite Hw. vm_compute. reflexivity.
Defined.

Lemma hidden_resize_relaid_on_next_track_witness :
  visible_ stopped_large = false /\
  mode_ stopped_large = LargeSongDetails /\
  resized_to {| sz_width := 200; sz_height := 0 |} stopped_large
    = Some (after (resized_to {| sz_width := 200; sz_height := 0 |}) stopped_large) /\
  cover_height_ (after (resized_to {| sz_width := 200; sz_height := 0 |}) stopped_large)
    = 260 /\
  exists w2,
    NowPlaying song1
      (after (resized_to {| sz_width := 200; sz_height := 0 |}) stopped_large)
      = Some w2 /\
    cover_height_ w2 = 200.
Proof.
  assert (Hv : visible_ stopped_large = false) by (vm_compute; reflexivity).
  assert (Hm : mode_ stopped_large = LargeSongDetails) by (vm_compute; reflexivity).
  assert (E1 : resized_to {| sz_width := 200; sz_height := 0 |} stopped_large
               = Some (after (resized_to {| sz_width := 200; sz_height := 0 |})
                         stopped_large))
    by (vm_compute; reflexivity).
  assert (E2 : NowPlaying song1
                 (after (resized_to {| sz_width := 200; sz_height := 0 |}) stopped_large)
               = Some (after (NowPlaying song1)
                         (after (resized_to {| sz_width := 200; sz_height := 0 |})
                            stopped_large)))
    by (vm_compute; reflexivity).
  destruct (@hidden_resize_relaid_on_next_track desktop _ _ _ _ _ Hv E1 E2)
    as (_ & Hstale & Hnew).
  split; [exact Hv |]. split; [exact Hm |]. split; [exact E1 |].
  split; [rewrite Hstale; vm_compute; reflexivity |].
  eexists. split; [exact E2 |].
  destruct (Hnew Hm) as (Hc & _). rewrite Hc. vm_compute. reflexivity.
Defined.
